(** * BuildRecipePage: a shallow embedding of the page component

    Source: src/app/src/pages/BuildRecipePage.js

    The component is a class with five observable fields, a constructor that
    starts [_lazyInitForm], two actions ([closeLoader], [deploy]) and a helper
    [uploadMetadata] that talks to an HTTP API.  Asynchronous methods are
    embedded as finite programs over two kinds of commands: synchronous ones,
    performed at once on the component's world, and awaited ones, answered by
    the environment.  A sequential interpreter [exec] runs one program against
    an oracle; the relation [step] is the event loop, in which suspended
    programs, timers and user actions interleave. *)

From Stdlib Require Import ZArith List String Ascii Bool Lia Relations.
Import ListNotations.

Local Open Scope Z_scope.

(** ** Data *)

(** The JavaScript values the page only passes around. *)
#[warnings="-register-all"] Inductive Value : Type :=
| VUndefined
| VString (s : string)
| VObject (fields : list (string * Value)).

(** One entry of [values.inputs]; [add({ id: uid() })] gives only the id. *)
Record Row : Type := mkRow {
  id : string;
  address : Value;
  amount : Value
}.

(** What [this.form.values()] returns. *)
Record Form : Type := mkForm {
  image : string;
  name : string;
  symbol : string;
  description : string;
  inputs : list Row
}.

(** The observable fields of the component (lines 26-30); [None] is
    [undefined] for [tokenAddress] and [null] for [form]. *)
Record State : Type := mkState {
  deploying : bool;
  playing : bool;
  totallyDone : bool;
  tokenAddress : option string;
  form : option Form
}.

Definition initial_state : State :=
  {| deploying := false; playing := false; totallyDone := false;
     tokenAddress := None; form := None |}.

(** The handle [props.store.domain.crafty]. *)
Inductive Crafty : Type := CraftyContract (at_address : string).

(** What the page reads from [props.store.domain] and [RootStore]. *)
Record Store : Type := mkStore {
  isLoadingCanonicalTokens : bool;
  canonicalTokensInfo : Value;
  crafty : option Crafty;
  currentAddress : string;
  api : string
}.

Inductive Error : Type :=
| UnexpectedAPIResponse (status : Z)
| TypeError (what : string)
| Rejected (reason : Value).

(** An axios response, as far as the page looks at it. *)
Record Response : Type := mkResponse {
  status : Z;
  data : Value
}.

(** The function given to [setTimeout] at line 49. *)
Inductive Callback : Type := InitFormCallback.

(** ** Commands *)

(** Assignments to the component's fields. *)
Inductive Write : Type :=
| SetDeploying (b : bool)
| SetPlaying (b : bool)
| SetTotallyDone (b : bool)
| SetTokenAddress (a : string)
| SetForm (f : Form)
| AddInput (r : Row).

Definition add_row (r : Row) (f : Form) : Form :=
  {| image := image f; name := name f; symbol := symbol f;
     description := description f; inputs := (inputs f ++ [r])%list |}.

Definition apply_write (w : Write) (s : State) : State :=
  match w with
  | SetDeploying b =>
      {| deploying := b; playing := playing s; totallyDone := totallyDone s;
         tokenAddress := tokenAddress s; form := form s |}
  | SetPlaying b =>
      {| deploying := deploying s; playing := b; totallyDone := totallyDone s;
         tokenAddress := tokenAddress s; form := form s |}
  | SetTotallyDone b =>
      {| deploying := deploying s; playing := playing s; totallyDone := b;
         tokenAddress := tokenAddress s; form := form s |}
  | SetTokenAddress a =>
      {| deploying := deploying s; playing := playing s;
         totallyDone := totallyDone s; tokenAddress := Some a; form := form s |}
  | SetForm f =>
      {| deploying := deploying s; playing := playing s;
         totallyDone := totallyDone s; tokenAddress := tokenAddress s;
         form := Some f |}
  | AddInput r =>
      {| deploying := deploying s; playing := playing s;
         totallyDone := totallyDone s; tokenAddress := tokenAddress s;
         form := option_map (add_row r) (form s) |}
  end.

(** Commands that complete within the current turn of the event loop. *)
Inductive Sync : Type -> Type :=
| ReadThis : Sync State
| ReadStore : Sync Store
| Assign (w : Write) : Sync unit
| ConsoleError (e : Error) : Sync unit
| DateNow : Sync Z
| Uid : Sync string
| SetTimeout (cb : Callback) (delay : Z) : Sync unit.

(** Promises the code awaits. *)
Inductive Async : Type -> Type :=
| AxiosPost (url : string) (body : Value) : Async Response
| AddCraftable (c : Crafty) (name symbol : string) (uri : Value)
    (ingredients amounts : list Value) : Async string
| When (cond : Store -> bool) : Async unit.

Inductive Prog (A : Type) : Type :=
| Ret (a : A)
| Throw (e : Error)
| Do {X : Type} (c : Sync X) (k : X -> Prog A)
| Await {X : Type} (c : Async X) (k : Error + X -> Prog A).

Arguments Ret {A} a.
Arguments Throw {A} e.
Arguments Do {A X} c k.
Arguments Await {A X} c k.

Fixpoint bind {A B : Type} (p : Prog A) (f : A -> Prog B) : Prog B :=
  match p with
  | Ret a => f a
  | Throw e => Throw e
  | Do c k => Do c (fun x => bind (k x) f)
  | Await c k => Await c (fun r => bind (k r) f)
  end.

(** [try { p } catch (error) { h error }] *)
Fixpoint try_catch {A : Type} (p : Prog A) (h : Error -> Prog A) : Prog A :=
  match p with
  | Ret a => Ret a
  | Throw e => h e
  | Do c k => Do c (fun x => try_catch (k x) h)
  | Await c k => Await c (fun r => try_catch (k r) h)
  end.

(** [try { p } finally { f }] *)
Fixpoint try_finally {A : Type} (p : Prog A) (f : Prog unit) : Prog A :=
  match p with
  | Ret a => bind f (fun _ => Ret a)
  | Throw e => bind f (fun _ => Throw e)
  | Do c k => Do c (fun x => try_finally (k x) f)
  | Await c k => Await c (fun r => try_finally (k r) f)
  end.

Definition act {X : Type} (c : Sync X) : Prog X := Do c Ret.

(** [await c]: a rejected promise throws. *)
Definition await {X : Type} (c : Async X) : Prog X :=
  Await c (fun r => match r with inl e => Throw e | inr x => Ret x end).

Declare Scope prog_scope.
Delimit Scope prog_scope with prog.
Bind Scope prog_scope with Prog.
Notation "x <- p ;; q" := (bind p (fun x => q))
  (at level 61, p at next level, right associativity) : prog_scope.
Notation "p ;; q" := (bind p (fun _ => q))
  (at level 61, right associativity) : prog_scope.

(** ** The world a program runs in *)

Inductive Event : Type :=
| EvPost (url : string) (body : Value) (answer : Error + Response)
| EvMint (c : Crafty) (name symbol : string) (uri : Value)
    (ingredients amounts : list Value) (answer : Error + string)
| EvLog (e : Error).

Record World : Type := mkWorld {
  this : State;
  store : Store;
  clock : Z;
  uids : nat;
  timers : list (Z * Callback);
  events : list Event
}.

Definition with_this (s : State) (w : World) : World :=
  {| this := s; store := store w; clock := clock w; uids := uids w;
     timers := timers w; events := events w |}.

Definition with_events (l : list Event) (w : World) : World :=
  {| this := this w; store := store w; clock := clock w; uids := uids w;
     timers := timers w; events := l |}.

Definition with_uids (n : nat) (w : World) : World :=
  {| this := this w; store := store w; clock := clock w; uids := n;
     timers := timers w; events := events w |}.

Definition with_timers (l : list (Z * Callback)) (w : World) : World :=
  {| this := this w; store := store w; clock := clock w; uids := uids w;
     timers := l; events := events w |}.

Definition with_store (st : Store) (w : World) : World :=
  {| this := this w; store := st; clock := clock w; uids := uids w;
     timers := timers w; events := events w |}.

Definition with_clock (t : Z) (w : World) : World :=
  {| this := this w; store := store w; clock := t; uids := uids w;
     timers := timers w; events := events w |}.

(** The event an answered promise leaves in the log ([when] leaves none). *)
Definition note {X : Type} (c : Async X) : (Error + X) -> World -> World :=
  match c in Async X return (Error + X) -> World -> World with
  | AxiosPost url body =>
      fun r w => with_events (events w ++ [EvPost url body r])%list w
  | AddCraftable c n s u i a =>
      fun r w => with_events (events w ++ [EvMint c n s u i a r])%list w
  | When _ => fun _ w => w
  end.

(** The environment of one sequential run. *)
Record Oracle : Type := mkOracle {
  post_answer : string -> Value -> Error + Response;
  mint_answer : Crafty -> string -> string -> Value -> list Value ->
                list Value -> Error + string
}.

(** In a sequential run the store does not change, so [when] resolves only
    if its condition already holds. *)
Definition answer {X : Type} (o : Oracle) (c : Async X) (w : World)
  : option (Error + X) :=
  match c in Async X return option (Error + X) with
  | AxiosPost url body => Some (post_answer o url body)
  | AddCraftable c n s u i a => Some (mint_answer o c n s u i a)
  | When cond => if cond (store w) then Some (inr tt) else None
  end.

Inductive Outcome (A : Type) : Type :=
| Returned (a : A)
| Raised (e : Error)
| Pending.

Arguments Returned {A} a.
Arguments Raised {A} e.
Arguments Pending {A}.

(** ** String helpers *)

(** [s.split(/,/)]: the pieces of [s] between commas, never an empty list. *)
Fixpoint split_comma (s : string) : list string :=
  match s with
  | EmptyString => [EmptyString]
  | String c rest =>
      if Ascii.eqb c ","%char then EmptyString :: split_comma rest
      else match split_comma rest with
           | [] => [String c EmptyString]
           | piece :: pieces => String c piece :: pieces
           end
  end.

(** [image.split(/,/)[1]] *)
Definition image_base64 (image : string) : Value :=
  match nth_error (split_comma image) 1 with
  | Some piece => VString piece
  | None => VUndefined
  end.

Fixpoint has_comma (s : string) : bool :=
  match s with
  | EmptyString => false
  | String c rest => Ascii.eqb c ","%char || has_comma rest
  end.

(** ** The component *)

Section Page.

(** [buildRecipeForm] (src/forms/BuildRecipe) and [uid] (src/util) are
    imported by the page; the n-th call of [uid] returns [uid n]. *)
Variable buildRecipeForm : Value -> Form.
Variable uid : nat -> string.

Definition perform {X : Type} (c : Sync X) : World -> X * World :=
  match c in Sync X return World -> X * World with
  | ReadThis => fun w => (this w, w)
  | ReadStore => fun w => (store w, w)
  | Assign wr => fun w => (tt, with_this (apply_write wr (this w)) w)
  | ConsoleError e =>
      fun w => (tt, with_events (events w ++ [EvLog e])%list w)
  | DateNow => fun w => (clock w, w)
  | Uid => fun w => (uid (uids w), with_uids (S (uids w)) w)
  | SetTimeout cb delay =>
      fun w => (tt, with_timers (timers w ++ [(clock w + delay, cb)])%list w)
  end.

(** One run with no other activity in between. *)
Fixpoint exec {A : Type} (o : Oracle) (p : Prog A) (w : World)
  : Outcome A * World :=
  match p with
  | Ret a => (Returned a, w)
  | Throw e => (Raised e, w)
  | Do c k => let (x, w') := perform c w in exec o (k x) w'
  | Await c k =>
      match answer o c w with
      | Some r => exec o (k r) (note c r w)
      | None => (Pending, w)
      end
  end.

Local Open Scope prog_scope.

(** lines 57-62 *)
Definition _canDeploy : Prog bool :=
  st <- act ReadStore ;;
  match crafty st with
  | None => Ret false
  | Some _ => Ret true
  end.

(** lines 64-66 *)
Definition _addInput : Prog unit :=
  s <- act ReadThis ;;
  match form s with
  | None => Throw (TypeError "this.form is null")
  | Some _ =>
      u <- act Uid ;;
      act (Assign (AddInput {| id := u; address := VUndefined;
                               amount := VUndefined |}))
  end.

(** lines 68-72 *)
Definition closeLoader : Prog unit :=
  act (Assign (SetPlaying false)) ;;
  act (Assign (SetTotallyDone true)).

Definition thumbnail_url (API : string) : string :=
  (API ++ "/thumbnail")%string.

Definition metadata_url (API : string) : string :=
  (API ++ "/metadata")%string.

Definition thumbnail_body (image : string) : Value :=
  VObject [("image-base64"%string, image_base64 image)].

Definition metadata_body (name description : string) (image : Value)
    (author : string) : Value :=
  VObject [("name"%string, VString name);
           ("description"%string, VString description);
           ("image"%string, image);
           ("author"%string, VString author)].

(** lines 107-129 *)
Definition uploadMetadata (name description image author : string)
  : Prog Value :=
  st <- act ReadStore ;;
  let API := api st in
  imageResponse <- await (AxiosPost (thumbnail_url API)
                                    (thumbnail_body image)) ;;
  if negb (status imageResponse =? 200)
  then Throw (UnexpectedAPIResponse (status imageResponse))
  else
    metadataResponse <-
      await (AxiosPost (metadata_url API)
               (metadata_body name description (data imageResponse)
                  author)) ;;
    if negb (status metadataResponse =? 200)
    then Throw (UnexpectedAPIResponse (status metadataResponse))
    else Ret (data metadataResponse).

(** [this.form.values()] *)
Definition form_values : Prog Form :=
  s <- act ReadThis ;;
  match form s with
  | None => Throw (TypeError "this.form is null")
  | Some f => Ret f
  end.

(** [crafty.addCraftable(...)] *)
Definition addCraftable (c : option Crafty) (name symbol : string)
    (uri : Value) (ingredients amounts : list Value) : Prog string :=
  match c with
  | None => Throw (TypeError "crafty is null")
  | Some h => await (AddCraftable h name symbol uri ingredients amounts)
  end.

(** lines 80-97, the body of the [try] block *)
Definition deploy_try : Prog unit :=
  st <- act ReadStore ;;
  let crafty := crafty st in
  values <- form_values ;;
  let ingredients := map address (inputs values) in
  let amounts := map amount (inputs values) in
  root <- act ReadStore ;;
  tokenMetadataURI <-
    uploadMetadata (name values) (description values) (image values)
      (currentAddress root) ;;
  tokenAddress <-
    addCraftable crafty (name values) (symbol values) tokenMetadataURI
      ingredients amounts ;;
  act (Assign (SetTokenAddress tokenAddress)) ;;
  act (Assign (SetTotallyDone true)).

(** lines 74-105 *)
Definition deploy : Prog unit :=
  can <- _canDeploy ;;
  if negb can then Ret tt
  else
    act (Assign (SetDeploying true)) ;;
    try_finally
      (try_catch deploy_try (fun error => act (ConsoleError error)))
      (act (Assign (SetDeploying false))).

(** lines 49-54, the function given to [setTimeout] *)
Definition init_form : Prog unit :=
  st <- act ReadStore ;;
  act (Assign (SetForm (buildRecipeForm (canonicalTokensInfo st)))) ;;
  _addInput.

Definition callback_body (cb : Callback) : Prog unit :=
  match cb with
  | InitFormCallback => init_form
  end.

(** lines 38-55 *)
Definition _lazyInitForm : Prog unit :=
  start <- act DateNow ;;
  await (When (fun st => negb (isLoadingCanonicalTokens st))) ;;
  finished <- act DateNow ;;
  let diff := finished - start in
  let minimumDelay := 800 in
  let timeLeft := minimumDelay - diff in
  let restDelay := Z.max 0 timeLeft in
  act (SetTimeout InitFormCallback restDelay).

(** A run of [p] from component state [s] with store [st] and an empty
    log: the state it ends in and the events it leaves. *)
Definition fresh (s : State) (st : Store) : World :=
  {| this := s; store := st; clock := 0; uids := 0; timers := [];
     events := [] |}.

Definition outcome {A : Type} (o : Oracle) (p : Prog A) (s : State)
    (st : Store) : Outcome A :=
  fst (exec o p (fresh s st)).

Definition final {A : Type} (o : Oracle) (p : Prog A) (s : State)
    (st : Store) : State :=
  this (snd (exec o p (fresh s st))).

Definition trace {A : Type} (o : Oracle) (p : Prog A) (s : State)
    (st : Store) : list Event :=
  events (snd (exec o p (fresh s st))).

(** What [render] derives from the fields (lines 135-144, 157). *)
Record View : Type := mkView {
  redirect : option string;
  loader_open : bool;
  loader_canClose : bool;
  sections_loading : bool
}.

Definition render (s : State) : View :=
  {| redirect :=
       if totallyDone s
       then Some ("/craft/" ++
                  match tokenAddress s with
                  | Some a => a
                  | None => "undefined"
                  end)%string
       else None;
     loader_open := playing s;
     loader_canClose := negb (deploying s);
     sections_loading :=
       match form s with
       | None => true
       | Some _ => false
       end |}.

(** ** The runs of deploy, case by case *)

Definition after_failure (s : State) : State :=
  apply_write (SetDeploying false) (apply_write (SetDeploying true) s).

Definition after_success (a : string) (s : State) : State :=
  apply_write (SetDeploying false)
    (apply_write (SetTotallyDone true)
       (apply_write (SetTokenAddress a)
          (apply_write (SetDeploying true) s))).

Inductive DeployRun (o : Oracle) (s : State) (st : Store)
  : State -> list Event -> Prop :=
| run_unavailable :
    crafty st = None ->
    DeployRun o s st s []
| run_no_form : forall h,
    crafty st = Some h -> form s = None ->
    DeployRun o s st (after_failure s)
      [EvLog (TypeError "this.form is null")]
| run_thumbnail_rejected : forall h f e,
    crafty st = Some h -> form s = Some f ->
    post_answer o (thumbnail_url (api st)) (thumbnail_body (image f))
      = inl e ->
    DeployRun o s st (after_failure s)
      [EvPost (thumbnail_url (api st)) (thumbnail_body (image f)) (inl e);
       EvLog e]
| run_thumbnail_status : forall h f r1,
    crafty st = Some h -> form s = Some f ->
    post_answer o (thumbnail_url (api st)) (thumbnail_body (image f))
      = inr r1 ->
    status r1 <> 200 ->
    DeployRun o s st (after_failure s)
      [EvPost (thumbnail_url (api st)) (thumbnail_body (image f)) (inr r1);
       EvLog (UnexpectedAPIResponse (status r1))]
| run_metadata_rejected : forall h f r1 e,
    crafty st = Some h -> form s = Some f ->
    post_answer o (thumbnail_url (api st)) (thumbnail_body (image f))
      = inr r1 ->
    status r1 = 200 ->
    post_answer o (metadata_url (api st))
      (metadata_body (name f) (description f) (data r1)
         (currentAddress st)) = inl e ->
    DeployRun o s st (after_failure s)
      [EvPost (thumbnail_url (api st)) (thumbnail_body (image f)) (inr r1);
       EvPost (metadata_url (api st))
         (metadata_body (name f) (description f) (data r1)
            (currentAddress st)) (inl e);
       EvLog e]
| run_metadata_status : forall h f r1 r2,
    crafty st = Some h -> form s = Some f ->
    post_answer o (thumbnail_url (api st)) (thumbnail_body (image f))
      = inr r1 ->
    status r1 = 200 ->
    post_answer o (metadata_url (api st))
      (metadata_body (name f) (description f) (data r1)
         (currentAddress st)) = inr r2 ->
    status r2 <> 200 ->
    DeployRun o s st (after_failure s)
      [EvPost (thumbnail_url (api st)) (thumbnail_body (image f)) (inr r1);
       EvPost (metadata_url (api st))
         (metadata_body (name f) (description f) (data r1)
            (currentAddress st)) (inr r2);
       EvLog (UnexpectedAPIResponse (status r2))]
| run_mint_rejected : forall h f r1 r2 e,
    crafty st = Some h -> form s = Some f ->
    post_answer o (thumbnail_url (api st)) (thumbnail_body (image f))
      = inr r1 ->
    status r1 = 200 ->
    post_answer o (metadata_url (api st))
      (metadata_body (name f) (description f) (data r1)
         (currentAddress st)) = inr r2 ->
    status r2 = 200 ->
    mint_answer o h (name f) (symbol f) (data r2)
      (map address (inputs f)) (map amount (inputs f)) = inl e ->
    DeployRun o s st (after_failure s)
      [EvPost (thumbnail_url (api st)) (thumbnail_body (image f)) (inr r1);
       EvPost (metadata_url (api st))
         (metadata_body (name f) (description f) (data r1)
            (currentAddress st)) (inr r2);
       EvMint h (name f) (symbol f) (data r2)
         (map address (inputs f)) (map amount (inputs f)) (inl e);
       EvLog e]
| run_minted : forall h f r1 r2 a,
    crafty st = Some h -> form s = Some f ->
    post_answer o (thumbnail_url (api st)) (thumbnail_body (image f))
      = inr r1 ->
    status r1 = 200 ->
    post_answer o (metadata_url (api st))
      (metadata_body (name f) (description f) (data r1)
         (currentAddress st)) = inr r2 ->
    status r2 = 200 ->
    mint_answer o h (name f) (symbol f) (data r2)
      (map address (inputs f)) (map amount (inputs f)) = inr a ->
    DeployRun o s st (after_success a s)
      [EvPost (thumbnail_url (api st)) (thumbnail_body (image f)) (inr r1);
       EvPost (metadata_url (api st))
         (metadata_body (name f) (description f) (data r1)
            (currentAddress st)) (inr r2);
       EvMint h (name f) (symbol f) (data r2)
         (map address (inputs f)) (map amount (inputs f)) (inr a)].

(** The invariant of the data model: a finished page has its token
    address and is not deploying. *)
Definition done_invariant (s : State) : Prop :=
  totallyDone s = true -> tokenAddress s <> None /\ deploying s = false.

(** A request that did not come back with status 200: axios rejected it (as
    it does, unless configured otherwise, for a status outside 2xx), or
    resolved with another status. *)
Definition not_200 (ans : Error + Response) : Prop :=
  match ans with
  | inl _ => True
  | inr r => status r <> 200
  end.

(** ** The event loop *)

(** One program runs at a time, up to its next [await]; the others are
    suspended on theirs. *)
Record Sys : Type := mkSys {
  running : option (Prog unit);
  suspended : list (Prog unit);
  world : World
}.

(** [when] resolves only once its condition holds; the network and the
    contract may give any answer. *)
Definition may_answer {X : Type} (c : Async X)
  : (Error + X) -> World -> Prop :=
  match c in Async X return (Error + X) -> World -> Prop with
  | When cond => fun r w => r = inr tt /\ cond (store w) = true
  | _ => fun _ _ => True
  end.

(** [setTimeout]: a timer fires once, and not before it is due. *)
Inductive fires (w : World) : Callback -> World -> Prop :=
| fires_due : forall due cb t1 t2,
    timers w = (t1 ++ (due, cb) :: t2)%list ->
    due <= clock w ->
    fires w cb (with_timers (t1 ++ t2)%list w).

(** The steps of the event loop.  The running program performs its next
    command, suspends on an [await], or ends; when none runs, a suspended
    program resumes with an answer, a due timer fires, the user calls
    [deploy], [closeLoader] (the loader's close request) or [_addInput]
    (the "+ Add Token" button) or edits the form, or time passes and the
    store changes. *)
Inductive step : Sys -> Sys -> Prop :=
| step_do : forall (X : Type) (c : Sync X) (k : X -> Prog unit) l w,
    step (mkSys (Some (Do c k)) l w)
         (mkSys (Some (k (fst (perform c w)))) l (snd (perform c w)))
| step_await : forall (X : Type) (c : Async X) k l w,
    step (mkSys (Some (Await c k)) l w)
         (mkSys None (l ++ [Await c k])%list w)
| step_return : forall a l w,
    step (mkSys (Some (Ret a)) l w) (mkSys None l w)
| step_throw : forall e l w,
    step (mkSys (Some (Throw e)) l w) (mkSys None l w)
| step_resume : forall (X : Type) (c : Async X) k r l1 l2 w,
    may_answer c r w ->
    step (mkSys None (l1 ++ Await c k :: l2)%list w)
         (mkSys (Some (k r)) (l1 ++ l2)%list (note c r w))
| step_timer : forall cb l w w',
    fires w cb w' ->
    step (mkSys None l w) (mkSys (Some (callback_body cb)) l w')
| step_deploy : forall l w,
    step (mkSys None l w) (mkSys (Some deploy) l w)
| step_closeLoader : forall l w,
    step (mkSys None l w) (mkSys (Some closeLoader) l w)
| step_addInput : forall l w,
    step (mkSys None l w) (mkSys (Some _addInput) l w)
| step_edit : forall f f' l w,
    form (this w) = Some f ->
    step (mkSys None l w)
         (mkSys None l (with_this (apply_write (SetForm f') (this w)) w))
| step_env : forall st' t' l w,
    clock w <= t' ->
    step (mkSys None l w) (mkSys None l (with_clock t' (with_store st' w))).

(** The constructor (lines 32-36) at time [t0]. *)
Definition boot_world (st : Store) (t0 : Z) : World :=
  {| this := initial_state; store := st; clock := t0; uids := 0;
     timers := []; events := [] |}.

Definition boot (st : Store) (t0 : Z) : Sys :=
  mkSys (Some _lazyInitForm) [] (boot_world st t0).

Inductive reachable (st : Store) (t0 : Z) : Sys -> Prop :=
| reach_boot : reachable st t0 (boot st t0)
| reach_step : forall sys sys',
    reachable st t0 sys -> step sys sys' -> reachable st t0 sys'.

(** A whole turn: the program up to its next [await] or its end. *)
Fixpoint turn (p : Prog unit) (w : World) : option (Prog unit) * World :=
  match p with
  | Ret _ => (None, w)
  | Throw _ => (None, w)
  | Do c k => let (x, w') := perform c w in turn (k x) w'
  | Await c k => (Some (Await c k), w)
  end.

(** How a run of [deploy] ends when a request does not come back with
    status 200, or the contract call is rejected: the error is logged and
    [deploying] reset. *)
Definition failure_of (ans : Error + Response) : Error :=
  match ans with
  | inl e => e
  | inr r => UnexpectedAPIResponse (status r)
  end.

Definition log_and_reset (e : Error) (w : World) : World :=
  with_this (apply_write (SetDeploying false) (this w))
    (with_events (events w ++ [EvLog e])%list w).

(** What a turn leaves suspended. *)
Definition parked (q : option (Prog unit)) : list (Prog unit) :=
  match q with
  | Some p => [p]
  | None => []
  end.

(** Programs all of whose commands satisfy [ok]. *)
Fixpoint uses_only (ok : forall X : Type, Sync X -> Prop) {A : Type}
    (p : Prog A) : Prop :=
  match p with
  | Ret _ => True
  | Throw _ => True
  | Do c k => ok _ c /\ forall x, uses_only ok (k x)
  | Await c k => forall r, uses_only ok (k r)
  end.

(** Commands that do not open the loader. *)
Definition calm_cmd (X : Type) (c : Sync X) : Prop :=
  match c with
  | Assign (SetPlaying true) => False
  | _ => True
  end.

Definition calm {A : Type} (p : Prog A) : Prop := uses_only calm_cmd p.

(** The commands of [deploy] (with [_canDeploy] and [uploadMetadata]). *)
Definition deploy_cmd (X : Type) (c : Sync X) : Prop :=
  match c with
  | ReadThis => True
  | ReadStore => True
  | Assign (SetDeploying _) => True
  | Assign (SetTokenAddress _) => True
  | Assign (SetTotallyDone true) => True
  | ConsoleError _ => True
  | _ => False
  end.

(** The commands of [closeLoader]. *)
Definition closeLoader_cmd (X : Type) (c : Sync X) : Prop :=
  match c with
  | Assign (SetPlaying false) => True
  | Assign (SetTotallyDone true) => True
  | _ => False
  end.

(** The commands of [_addInput]. *)
Definition addInput_cmd (X : Type) (c : Sync X) : Prop :=
  match c with
  | ReadThis => True
  | Uid => True
  | Assign (AddInput _) => True
  | _ => False
  end.

(** Commands that do not write [playing] at all. *)
Definition keeps_playing_cmd (X : Type) (c : Sync X) : Prop :=
  match c with
  | Assign (SetPlaying _) => False
  | _ => True
  end.

(** Commands that neither open the loader, nor build the form, nor set a
    timer: all that [deploy], [closeLoader] and [_addInput] use. *)
Definition quiet_cmd (X : Type) (c : Sync X) : Prop :=
  match c with
  | Assign (SetPlaying true) => False
  | Assign (SetForm _) => False
  | SetTimeout _ _ => False
  | _ => True
  end.

Definition quiet {A : Type} (p : Prog A) : Prop := uses_only quiet_cmd p.

Definition loader_closed (sys : Sys) : Prop :=
  playing (this (world sys)) = false /\
  (forall p, running sys = Some p -> calm p) /\
  Forall calm (suspended sys).

(** A command run at time [now] respects the minimum delay counted from
    [t0]: the form is built only once the delay has passed and timers are
    due only after it. *)
Definition on_time_cmd (t0 now : Z) (X : Type) (c : Sync X) : Prop :=
  match c with
  | Assign (SetForm _) => t0 + 800 <= now
  | SetTimeout _ delay => t0 + 800 <= now + delay
  | _ => True
  end.

(** What a command may return at time [now]: [Date.now()] returns the time. *)
Definition returns (now : Z) {X : Type} (c : Sync X) : X -> Prop :=
  match c in Sync X return X -> Prop with
  | DateNow => fun x => x = now
  | _ => fun _ => True
  end.

(** A program that, run from time [now] on, respects the minimum delay. *)
Fixpoint on_time (t0 now : Z) {A : Type} (p : Prog A) : Prop :=
  match p with
  | Ret _ => True
  | Throw _ => True
  | Do c k =>
      on_time_cmd t0 now _ c /\
      forall x, returns now c x -> on_time t0 now (k x)
  | Await c k =>
      forall later r, now <= later -> on_time t0 later (k r)
  end.

Definition form_on_time (t0 : Z) (sys : Sys) : Prop :=
  let w := world sys in
  (form (this w) <> None -> t0 + 800 <= clock w) /\
  Forall (fun t => t0 + 800 <= fst t) (timers w) /\
  (forall p, running sys = Some p -> on_time t0 (clock w) p) /\
  Forall (fun p => forall later, clock w <= later -> on_time t0 later p)
    (suspended sys).

(** ** Clicks on "+ Add Token" *)

(** The row [_addInput] adds: [{ id: uid() }]. *)
Definition blank_row (u : string) : Row :=
  {| id := u; address := VUndefined; amount := VUndefined |}.

(** [n] calls of [_addInput], one after the other. *)
Fixpoint add_inputs (n : nat) : Prog unit :=
  match n with
  | O => Ret tt
  | S m => bind _addInput (fun _ => add_inputs m)
  end.

Definition is_post (e : Event) : Prop :=
  match e with
  | EvPost _ _ _ => True
  | _ => False
  end.

(** ** Invariants of the event loop, for the further properties *)

(** All the commands of the page's programs: every command but the two
    assignments the page never makes, [playing = true] and
    [totallyDone = false]; the only timer function is the form's. *)
Definition page_cmd (X : Type) (c : Sync X) : Prop :=
  match c with
  | Assign (SetPlaying true) => False
  | Assign (SetTotallyDone false) => False
  | _ => True
  end.

Definition programs_use (ok : forall X : Type, Sync X -> Prop) (sys : Sys)
  : Prop :=
  (forall p, running sys = Some p -> uses_only ok p) /\
  Forall (uses_only ok) (suspended sys).

(** What never reverts. *)
Definition settled (s s' : State) : Prop :=
  (totallyDone s = true -> totallyDone s' = true) /\
  (tokenAddress s <> None -> tokenAddress s' <> None) /\
  (form s <> None -> form s' <> None).

Definition is_when {X : Type} (c : Async X) : bool :=
  match c with
  | When _ => true
  | _ => false
  end.

(** A [when] that cannot resolve while the tokens are loading. *)
Definition gate {X : Type} (c : Async X) : Prop :=
  match c with
  | When cond =>
      forall st, cond st = true -> isLoadingCanonicalTokens st = false
  | _ => True
  end.

(** A program that neither builds the form nor sets a timer before it has
    passed such a [when]. *)
Fixpoint held {A : Type} (p : Prog A) : Prop :=
  match p with
  | Ret _ => True
  | Throw _ => True
  | Do c k => quiet_cmd _ c /\ forall x, held (k x)
  | Await c k => gate c /\ forall r, is_when c = false -> held (k r)
  end.

(** The states reached while the tokens keep loading. *)
Inductive loading_run (st : Store) (t0 : Z) : Sys -> Prop :=
| loading_boot :
    isLoadingCanonicalTokens st = true ->
    loading_run st t0 (boot st t0)
| loading_step : forall sys sys',
    loading_run st t0 sys ->
    step sys sys' ->
    isLoadingCanonicalTokens (store (world sys')) = true ->
    loading_run st t0 sys'.

Definition waiting (sys : Sys) : Prop :=
  isLoadingCanonicalTokens (store (world sys)) = true /\
  form (this (world sys)) = None /\
  timers (world sys) = [] /\
  (forall p, running sys = Some p -> held p) /\
  Forall held (suspended sys).

(** Commands other than [deploying = true]. *)
Definition tame_cmd (X : Type) (c : Sync X) : Prop :=
  match c with
  | Assign (SetDeploying true) => False
  | _ => True
  end.

Definition sets_deploying {X : Type} (c : Sync X) : Prop :=
  match c with
  | Assign (SetDeploying true) => True
  | _ => False
  end.

Definition resets_deploying {X : Type} (c : Sync X) : Prop :=
  match c with
  | Assign (SetDeploying false) => True
  | _ => False
  end.

(** A program that, whatever the answers it gets, assigns
    [deploying = false] before it ends, and not [deploying = true] before
    that. *)
Fixpoint will_reset {A : Type} (p : Prog A) : Prop :=
  match p with
  | Ret _ => False
  | Throw _ => False
  | Do c k =>
      resets_deploying c \/ (tame_cmd _ c /\ forall x, will_reset (k x))
  | Await c k => forall r, will_reset (k r)
  end.

(** A program that, whenever it assigns [deploying = true], goes on as a
    program that will reset it. *)
Fixpoint careful {A : Type} (p : Prog A) : Prop :=
  match p with
  | Ret _ => True
  | Throw _ => True
  | Do c k =>
      (sets_deploying c -> forall x, will_reset (k x)) /\
      forall x, careful (k x)
  | Await c k => forall r, careful (k r)
  end.

(** The programs of the loop: the one that runs and the suspended ones. *)
Definition in_flight (sys : Sys) (p : Prog unit) : Prop :=
  running sys = Some p \/ In p (suspended sys).

Definition deploying_accounted (sys : Sys) : Prop :=
  (forall p, in_flight sys p -> careful p) /\
  (deploying (this (world sys)) = true ->
   exists p, in_flight sys p /\ will_reset p).

(** ** The loop as the page offers it *)

(** [closeLoader] is given to the page's only [BlockingLoader], as
    [requestClose], with [open={this.playing}] (lines 138-144): the loader
    asks to be closed only while it is open.  The other steps are those of
    [step]. *)
Inductive page_step : Sys -> Sys -> Prop :=
| page_run : forall sys sys',
    running sys <> None -> step sys sys' -> page_step sys sys'
| page_resume : forall (X : Type) (c : Async X) k r l1 l2 w,
    may_answer c r w ->
    page_step (mkSys None (l1 ++ Await c k :: l2)%list w)
              (mkSys (Some (k r)) (l1 ++ l2)%list (note c r w))
| page_timer : forall cb l w w',
    fires w cb w' ->
    page_step (mkSys None l w) (mkSys (Some (callback_body cb)) l w')
| page_deploy : forall l w,
    page_step (mkSys None l w) (mkSys (Some deploy) l w)
| page_closeLoader : forall l w,
    loader_open (render (this w)) = true ->
    page_step (mkSys None l w) (mkSys (Some closeLoader) l w)
| page_addInput : forall l w,
    page_step (mkSys None l w) (mkSys (Some _addInput) l w)
| page_edit : forall f f' l w,
    form (this w) = Some f ->
    page_step (mkSys None l w)
              (mkSys None l (with_this (apply_write (SetForm f') (this w)) w))
| page_env : forall st' t' l w,
    clock w <= t' ->
    page_step (mkSys None l w)
              (mkSys None l (with_clock t' (with_store st' w))).

Inductive page_reachable (st : Store) (t0 : Z) : Sys -> Prop :=
| page_boot : page_reachable st t0 (boot st t0)
| page_next : forall sys sys',
    page_reachable st t0 sys -> page_step sys sys' ->
    page_reachable st t0 sys'.







End Page.

(** ** Inputs used to exercise the statements *)

Module Sample.

Local Open Scope string_scope.

Definition sword : Form :=
  {| image := "data:image/png;base64,iVBORw0KGgo=";
     name := "Sword"; symbol := "SWD"; description := "A sharp one";
     inputs := [ {| id := "r1"; address := VString "0xA";
                    amount := VString "1" |};
                 {| id := "r2"; address := VString "0xB";
                    amount := VString "2" |} ] |}.

Definition domain : Store :=
  {| isLoadingCanonicalTokens := false;
     canonicalTokensInfo := VObject [];
     crafty := Some (CraftyContract "0xC0FFEE");
     currentAddress := "0xA11CE";
     api := "https://api.example" |}.

Definition offline : Store :=
  {| isLoadingCanonicalTokens := false;
     canonicalTokensInfo := VObject [];
     crafty := None;
     currentAddress := "0xA11CE";
     api := "https://api.example" |}.

Definition page : State := apply_write (SetForm sword) initial_state.

Definition all_ok : Oracle :=
  {| post_answer := fun url _ =>
       if String.eqb url "https://api.example/thumbnail"
       then inr {| status := 200; data := VString "ipfs://image" |}
       else inr {| status := 200; data := VString "ipfs://metadata" |};
     mint_answer := fun _ _ _ _ _ _ => inr "0xNEW" |}.

Definition thumbnail_500 : Oracle :=
  {| post_answer := fun _ _ => inr {| status := 500; data := VUndefined |};
     mint_answer := fun _ _ _ _ _ _ => inr "0xNEW" |}.

Definition metadata_404 : Oracle :=
  {| post_answer := fun url _ =>
       if String.eqb url "https://api.example/thumbnail"
       then inr {| status := 200; data := VString "ipfs://image" |}
       else inr {| status := 404; data := VUndefined |};
     mint_answer := fun _ _ _ _ _ _ => inr "0xNEW" |}.

Definition uid (n : nat) : string := String.concat "" (repeat "u" (S n)).

(** Modelled from the spec: [buildRecipeForm] of src/forms/BuildRecipe is
    not in the sources.  Sections 3 and 4.1 describe the schema it builds:
    the scalar fields [image], [name], [symbol], [description] and the
    ordered sequence [inputs], which the initializer then seeds with one
    empty row; the schema itself comes with no row. *)
Definition emptyRecipeForm (tokens : Value) : Form :=
  {| image := ""; name := ""; symbol := ""; description := "";
     inputs := [] |}.

End Sample.

(** ** More inputs: failures and edge cases *)

Module Cases.

Local Open Scope string_scope.

Definition mint_rejects : Oracle :=
  {| post_answer := post_answer Sample.all_ok;
     mint_answer := fun _ _ _ _ _ _ =>
       inl (Rejected (VString "revert")) |}.

(** A page whose form is in place and that has already finished once. *)
Definition done_page : State :=
  {| deploying := false; playing := false; totallyDone := true;
     tokenAddress := Some "0xOLD"; form := Some Sample.sword |}.

(** The same form on a page whose flags say a run is in flight. *)
Definition busy_page : State :=
  {| deploying := true; playing := false; totallyDone := false;
     tokenAddress := None; form := Some Sample.sword |}.

Definition loading : Store :=
  {| isLoadingCanonicalTokens := true;
     canonicalTokensInfo := VUndefined;
     crafty := Some (CraftyContract "0xC0FFEE");
     currentAddress := "0xA11CE";
     api := "https://api.example" |}.

(** The thumbnail request resolves with a 2xx status other than 200. *)
Definition thumbnail_204 : Oracle :=
  {| post_answer := fun _ _ => inr {| status := 204; data := VUndefined |};
     mint_answer := fun _ _ _ _ _ _ => inr "0xNEW" |}.

(** The thumbnail endpoint answers 500: axios rejects the request. *)
Definition thumbnail_rejected : Oracle :=
  {| post_answer := fun _ _ =>
       inl (Rejected (VString "Request failed with status code 500"));
     mint_answer := fun _ _ _ _ _ _ => inr "0xNEW" |}.

(** The page 800 ms after its construction, the tokens loaded, the form
    built and filled in. *)
Definition ready_world : World :=
  {| this := Sample.page; store := Sample.domain; clock := 800;
     uids := 1; timers := []; events := [] |}.

End Cases.

(** * Properties *)

Section Facts.

Variable buildRecipeForm : Value -> Form.
Variable uid : nat -> string.

(** ** URLs *)

Lemma url_suffix_inj : forall (a x y : string),
  (a ++ x)%string = (a ++ y)%string -> x = y.
Proof.
  induction a as [|c a IH]; simpl; intros x y H.
  - exact H.
  - injection H as H. now apply IH.
Qed.

Lemma thumbnail_not_metadata : forall API,
  thumbnail_url API <> metadata_url API.
Proof.
  intros API H. apply url_suffix_inj in H. discriminate H.
Qed.

(** ** Every run of deploy is one of the eight cases *)

Local Ltac ends_in X :=
  match goal with
  | Hf : form _ = _ |- DeployRun _ _ _ ?a _ =>
      replace a with X
        by (unfold after_failure, after_success; cbn; rewrite ?Hf;
            reflexivity)
  end.

Lemma deploy_run : forall o s st,
  DeployRun o s st (final uid o deploy s st) (trace uid o deploy s st).
Proof.
  intros o s st.
  unfold trace, final, deploy, deploy_try, _canDeploy, form_values,
    uploadMetadata, addCraftable.
  cbn.
  destruct (crafty st) as [h|] eqn:Hc; cbn;
    [|now apply run_unavailable].
  destruct (form s) as [f|] eqn:Hf; cbn;
    [|ends_in (after_failure s); now apply (run_no_form o s st h)].
  destruct (post_answer o _ _) as [e|r1] eqn:E1; cbn;
    [ends_in (after_failure s);
     now apply (run_thumbnail_rejected o s st h f)|].
  destruct (status r1 =? 200) eqn:S1; cbn;
    [apply Z.eqb_eq in S1
    |apply Z.eqb_neq in S1; ends_in (after_failure s);
     now apply (run_thumbnail_status o s st h f r1)].
  destruct (post_answer o (metadata_url _) _) as [e|r2] eqn:E2; cbn;
    [ends_in (after_failure s);
     now apply (run_metadata_rejected o s st h f r1)|].
  destruct (status r2 =? 200) eqn:S2; cbn;
    [apply Z.eqb_eq in S2
    |apply Z.eqb_neq in S2; ends_in (after_failure s);
     now apply (run_metadata_status o s st h f r1 r2)].
  rewrite Hc; cbn.
  destruct (mint_answer o h (name f) (symbol f) (data r2)
              (map address (inputs f)) (map amount (inputs f)))
    as [e|a] eqn:E3; cbn.
  - ends_in (after_failure s).
    now apply (run_mint_rejected o s st h f r1 r2 e).
  - ends_in (after_success a s).
    now apply (run_minted o s st h f r1 r2 a).
Qed.

(** Splits a membership in an explicit trace into its cases and drops the
    impossible ones. *)
Local Ltac among H :=
  simpl in H;
  repeat (destruct H as [H|H]; [try discriminate H|]);
  try contradiction.

(** Compares two events found equal; different endpoints and different
    answers end the case. *)
Local Ltac same_event H :=
  inversion H; subst; clear H; cbn [not_200] in *; try congruence;
  try (exfalso;
       match goal with
       | E : thumbnail_url _ = metadata_url _ |- _ =>
           exact (thumbnail_not_metadata _ E)
       | E : metadata_url _ = thumbnail_url _ |- _ =>
           exact (thumbnail_not_metadata _ (eq_sym E))
       end).

(** C5. When [props.store.domain.crafty] is absent, [deploy()] returns at
    once: the world it leaves is the world it found, so every field of the
    component is unchanged and the log has no new event (no request, no
    mint, no error); the call ends within its turn, nothing is left
    suspended. *)
Theorem deploy_noop_without_crafty : forall o w,
  crafty (store w) = None ->
  exec uid o deploy w = (Returned tt, w) /\
  turn uid deploy w = (None, w).
Proof.
  intros o w H. unfold deploy, _canDeploy. cbn. rewrite H. cbn. auto.
Qed.

(** C2. In a run of [deploy()] where the thumbnail request and the metadata
    request are answered with status 200 and [addCraftable] resolves to
    [a], the run ends with [tokenAddress = a], [totallyDone = true] and
    [deploying = false]. *)
Theorem deploy_success_final_state :
  forall o s st b1 r1 b2 r2 h n sy u ings amts a,
  In (EvPost (thumbnail_url (api st)) b1 (inr r1))
     (trace uid o deploy s st) ->
  status r1 = 200 ->
  In (EvPost (metadata_url (api st)) b2 (inr r2))
     (trace uid o deploy s st) ->
  status r2 = 200 ->
  In (EvMint h n sy u ings amts (inr a)) (trace uid o deploy s st) ->
  tokenAddress (final uid o deploy s st) = Some a /\
  totallyDone (final uid o deploy s st) = true /\
  deploying (final uid o deploy s st) = false.
Proof.
  intros o s st b1 r1 b2 r2 h n sy u ings amts a _ _ _ _ Hmint.
  destruct (deploy_run o s st); among Hmint; same_event Hmint.
  repeat split.
Qed.

(** C3. In a run of [deploy()] where the thumbnail request does not come
    back with status 200 (it is answered with another status, or axios
    rejects it), no request goes to the metadata endpoint, [addCraftable] is
    not invoked, [totallyDone] keeps its value (so it remains false), and
    [deploying] is false at the end. *)
Theorem deploy_thumbnail_failure_stops : forall o s st body ans,
  In (EvPost (thumbnail_url (api st)) body ans) (trace uid o deploy s st) ->
  not_200 ans ->
  (forall body' ans',
      ~ In (EvPost (metadata_url (api st)) body' ans')
           (trace uid o deploy s st)) /\
  (forall h n sy u ings amts ans',
      ~ In (EvMint h n sy u ings amts ans') (trace uid o deploy s st)) /\
  totallyDone (final uid o deploy s st) = totallyDone s /\
  deploying (final uid o deploy s st) = false.
Proof.
  intros o s st body ans Hin Hst.
  destruct (deploy_run o s st); among Hin; same_event Hin;
    (repeat split; try reflexivity;
     [intros body' ans' Hm; among Hm; same_event Hm
     |intros h0 n sy u ings amts ans' Hm; among Hm]).
Qed.

(** C4. In a run of [deploy()] where the metadata request does not come back
    with status 200 (it is answered with another status, or axios rejects
    it), [addCraftable] is not invoked, [totallyDone] keeps its value (so it
    remains false), and [deploying] is false at the end. *)
Theorem deploy_metadata_failure_stops : forall o s st body ans,
  In (EvPost (metadata_url (api st)) body ans) (trace uid o deploy s st) ->
  not_200 ans ->
  (forall h n sy u ings amts ans',
      ~ In (EvMint h n sy u ings amts ans') (trace uid o deploy s st)) /\
  totallyDone (final uid o deploy s st) = totallyDone s /\
  deploying (final uid o deploy s st) = false.
Proof.
  intros o s st body ans Hin Hst.
  destruct (deploy_run o s st); among Hin; same_event Hin;
    (repeat split; try reflexivity;
     intros h0 n sy u ings amts ans' Hm; among Hm).
Qed.

(** C6. Whenever a run of [deploy()] invokes [addCraftable], the address
    list and the amount list it passes are the addresses and the amounts of
    the form's rows, in the rows' order: the i-th entry of each list comes
    from the i-th row. *)
Theorem deploy_mint_lists_follow_rows :
  forall o s st f h n sy u ings amts ans,
  form s = Some f ->
  In (EvMint h n sy u ings amts ans) (trace uid o deploy s st) ->
  ings = map address (inputs f) /\
  amts = map amount (inputs f) /\
  forall i row,
    nth_error (inputs f) i = Some row ->
    nth_error ings i = Some (address row) /\
    nth_error amts i = Some (amount row).
Proof.
  intros o s st f h n sy u ings amts ans Hf Hin.
  assert (ings = map address (inputs f) /\ amts = map amount (inputs f))
    as [-> ->].
  { destruct (deploy_run o s st); among Hin; same_event Hin;
      split; congruence. }
  repeat split; auto using map_nth_error.
Qed.

(** ** Deploy, turn by turn

    The same run in the event loop, where the world may have changed in any
    way between two turns: the requests carry what was read when [deploy]
    was called, and the last turn writes the outcome whatever the state it
    finds. *)

(** X20. Turn by turn: the first turn of [deploy] sets [deploying] and
    sends the thumbnail request; every request and the contract call carry
    what was read when [deploy] was called; an answer other than a 200
    response ends the run by logging the error and resetting [deploying];
    after a resolved contract call the last turn writes [tokenAddress],
    [totallyDone = true] and [deploying = false] on whatever state it
    finds. *)
Lemma deploy_turn_by_turn : forall w h f,
  crafty (store w) = Some h ->
  form (this w) = Some f ->
  exists k1,
    turn uid deploy w =
      (Some (Await (AxiosPost (thumbnail_url (api (store w)))
                      (thumbnail_body (image f))) k1),
       with_this (apply_write (SetDeploying true) (this w)) w) /\
    (forall ans w1, not_200 ans ->
        turn uid (k1 ans) w1 = (None, log_and_reset (failure_of ans) w1)) /\
    (forall r1 w1, status r1 = 200 ->
      exists k2,
        turn uid (k1 (inr r1)) w1 =
          (Some (Await (AxiosPost (metadata_url (api (store w)))
                          (metadata_body (name f) (description f) (data r1)
                             (currentAddress (store w)))) k2), w1) /\
        (forall ans w2, not_200 ans ->
            turn uid (k2 ans) w2
              = (None, log_and_reset (failure_of ans) w2)) /\
        (forall r2 w2, status r2 = 200 ->
          exists k3,
            turn uid (k2 (inr r2)) w2 =
              (Some (Await (AddCraftable h (name f) (symbol f) (data r2)
                              (map address (inputs f))
                              (map amount (inputs f))) k3), w2) /\
            (forall e w3,
                turn uid (k3 (inl e)) w3 = (None, log_and_reset e w3)) /\
            (forall a w3,
                turn uid (k3 (inr a)) w3 =
                  (None,
                   with_this
                     (apply_write (SetDeploying false)
                        (apply_write (SetTotallyDone true)
                           (apply_write (SetTokenAddress a) (this w3))))
                     w3)))).
Proof.
  intros w h f Hc Hf.
  eexists. split.
  { unfold deploy, deploy_try, _canDeploy, form_values, uploadMetadata,
      addCraftable.
    cbn. rewrite Hc. cbn. rewrite Hf. cbn. reflexivity. }
  split.
  { intros [e|r] w1 Hans; cbn in *; [reflexivity|].
    apply Z.eqb_neq in Hans. rewrite Hans. reflexivity. }
  intros r1 w1 H1. apply Z.eqb_eq in H1.
  eexists. split.
  { cbn. rewrite H1. cbn. reflexivity. }
  split.
  { intros [e|r] w2 Hans; cbn in *; [reflexivity|].
    apply Z.eqb_neq in Hans. rewrite Hans. reflexivity. }
  intros r2 w2 H2. apply Z.eqb_eq in H2.
  eexists. split.
  { cbn. rewrite H2. cbn. rewrite Hc. cbn. reflexivity. }
  split; intros; reflexivity.
Qed.

(** ** The invariant of the data model *)

(** X21. A complete run of [deploy()] started in a state where
    "[totallyDone] implies [tokenAddress] set and [deploying] false" holds
    ends in such a state. *)
Lemma deploy_preserves_done_invariant : forall o s st,
  done_invariant s -> done_invariant (final uid o deploy s st).
Proof.
  intros o s st Hinv.
  destruct (deploy_run o s st); trivial;
    unfold done_invariant in *; cbn; intros Hdone;
    try (destruct (Hinv Hdone) as [Ha _]; now split).
  split; [discriminate|reflexivity].
Qed.

(** A turn of the event loop is a sequence of its steps. *)
Lemma turn_reaches : forall st t0 p l w,
  reachable buildRecipeForm uid st t0 (mkSys (Some p) l w) ->
  reachable buildRecipeForm uid st t0
    (mkSys None (l ++ parked (fst (turn uid p w)))%list
       (snd (turn uid p w))).
Proof.
  induction p as [a|e|X c k IH|X c k IH]; intros l w Hr; cbn.
  - rewrite app_nil_r. eapply reach_step; [exact Hr|apply step_return].
  - rewrite app_nil_r. eapply reach_step; [exact Hr|apply step_throw].
  - destruct (perform uid c w) as [x w'] eqn:E.
    apply IH. eapply reach_step in Hr; [|apply step_do].
    now rewrite E in Hr.
  - eapply reach_step; [exact Hr|apply step_await].
Qed.

(** Every sequential run that ends is an execution of the event loop. *)
Lemma exec_reaches : forall st t0 o (p : Prog unit) l w,
  reachable buildRecipeForm uid st t0 (mkSys (Some p) l w) ->
  fst (exec uid o p w) <> Pending ->
  reachable buildRecipeForm uid st t0 (mkSys None l (snd (exec uid o p w))).
Proof.
  intros st t0 o.
  induction p as [a|e|X c k IH|X c k IH]; intros l w Hr Hdone; cbn in *.
  - eapply reach_step; [exact Hr|apply step_return].
  - eapply reach_step; [exact Hr|apply step_throw].
  - destruct (perform uid c w) as [x w'] eqn:E.
    apply IH; [|exact Hdone].
    eapply reach_step in Hr; [|apply step_do]. now rewrite E in Hr.
  - destruct (answer o c w) as [r|] eqn:E; [|now contradiction Hdone].
    apply IH; [|exact Hdone].
    eapply reach_step in Hr; [|apply step_await].
    eapply reach_step in Hr;
      [|apply (step_resume buildRecipeForm uid X c k r l [] w)].
    + now rewrite app_nil_r in Hr.
    + destruct c; cbn in *; auto.
      destruct (cond (store w)); [|discriminate E].
      injection E as <-. now split.
Qed.

(** ** Form initialization *)

(** C7. Once the function given to [setTimeout] has run, with a
    [buildRecipeForm] that builds a form without rows, the form is in place
    and its input list has exactly one row, the one [_addInput] adds. *)
Theorem init_form_one_row : forall o w,
  inputs (buildRecipeForm (canonicalTokensInfo (store w))) = [] ->
  let run := exec uid o (callback_body buildRecipeForm InitFormCallback) w in
  let w' := snd run in
  fst run = Returned tt /\
  exists f,
    form (this w') = Some f /\
    inputs f = [ {| id := uid (uids w); address := VUndefined;
                    amount := VUndefined |} ] /\
    List.length (inputs f) = 1%nat.
Proof.
  intros o w Hempty. cbn. split; [reflexivity|].
  eexists. split; [reflexivity|]. cbn. rewrite Hempty. now split.
Qed.

(** ** The thumbnail payload *)

Lemma split_comma_plain : forall s,
  has_comma s = false -> split_comma s = [s].
Proof.
  induction s as [|c s IH]; cbn; intros H; [reflexivity|].
  apply orb_false_iff in H as [Hc Hs].
  rewrite Hc, (IH Hs). reflexivity.
Qed.

Lemma split_comma_prefix : forall p rest,
  has_comma p = false ->
  split_comma (p ++ String ","%char rest)%string = p :: split_comma rest.
Proof.
  induction p as [|c p IH]; cbn; intros rest H; [reflexivity|].
  apply orb_false_iff in H as [Hc Hp].
  rewrite Hc, (IH rest Hp). reflexivity.
Qed.

Lemma image_base64_prefixed : forall prefix payload,
  has_comma prefix = false -> has_comma payload = false ->
  image_base64 (prefix ++ "," ++ payload)%string = VString payload.
Proof.
  intros prefix payload Hp Hq. unfold image_base64.
  change ("," ++ payload)%string with (String ","%char payload).
  rewrite (split_comma_prefix _ _ Hp), (split_comma_plain _ Hq).
  reflexivity.
Qed.

Lemma image_base64_plain : forall image,
  has_comma image = false -> image_base64 image = VUndefined.
Proof.
  intros image H. unfold image_base64.
  now rewrite (split_comma_plain _ H).
Qed.

(** C9, amended. For an image value made of a prefix, a comma and a
    payload, neither of which contains a comma (a data URI with base64
    content), the [image-base64] field of the thumbnail request is the
    payload, without the prefix.  For every image value, when the thumbnail
    request does not come back with status 200, [uploadMetadata] throws and
    has sent nothing else: the "Unexpected API response" error carrying the
    status when the request resolved with another status (line 113), and
    the rejection itself when axios rejected the request, as it does for
    a status outside 2xx. *)
Theorem thumbnail_payload_strips_prefix :
  forall o w prefix payload name description image author ans,
  has_comma prefix = false ->
  has_comma payload = false ->
  post_answer o (thumbnail_url (api (store w))) (thumbnail_body image)
    = ans ->
  not_200 ans ->
  thumbnail_body (prefix ++ "," ++ payload)%string
    = VObject [("image-base64"%string, VString payload)] /\
  exec uid o (uploadMetadata name description image author) w
    = (Raised (failure_of ans),
       with_events
         (events w ++
          [EvPost (thumbnail_url (api (store w))) (thumbnail_body image)
             ans])%list w) /\
  (forall r, ans = inr r ->
             failure_of ans = UnexpectedAPIResponse (status r)) /\
  (forall e, ans = inl e -> failure_of ans = e).
Proof.
  intros o w prefix payload name description image author ans
    Hp Hq Hans Hst.
  split; [|split; [|split]].
  - unfold thumbnail_body.
    now rewrite (image_base64_prefixed _ _ Hp Hq).
  - unfold uploadMetadata. cbn. rewrite Hans.
    destruct ans as [e|r]; cbn in *; [reflexivity|].
    apply Z.eqb_neq in Hst. rewrite Hst. reflexivity.
  - now intros r ->.
  - now intros e ->.
Qed.

(** ** Programs and the commands they use *)

Section UsesOnly.

Variable ok : forall X : Type, Sync X -> Prop.

Lemma uses_only_bind : forall (A B : Type) (p : Prog A) (f : A -> Prog B),
  uses_only ok p -> (forall a, uses_only ok (f a)) ->
  uses_only ok (bind p f).
Proof.
  induction p as [a|e|X c k IH|X c k IH]; cbn; intros f Hp Hf;
    auto; destruct Hp; auto.
Qed.

Lemma uses_only_try_catch : forall (A : Type) (p : Prog A) h,
  uses_only ok p -> (forall e, uses_only ok (h e)) ->
  uses_only ok (try_catch p h).
Proof.
  induction p as [a|e|X c k IH|X c k IH]; cbn; intros h Hp Hh;
    auto; destruct Hp; auto.
Qed.

Lemma uses_only_try_finally : forall (A : Type) (p : Prog A) f,
  uses_only ok p -> uses_only ok f -> uses_only ok (try_finally p f).
Proof.
  induction p as [a|e|X c k IH|X c k IH]; cbn; intros f Hp Hf.
  - apply uses_only_bind; cbn; auto.
  - apply uses_only_bind; cbn; auto.
  - destruct Hp; auto.
  - auto.
Qed.

Lemma uses_only_await : forall (X : Type) (c : Async X),
  uses_only ok (await c).
Proof. intros X c [e|x]; exact I. Qed.

Lemma uses_only_act : forall (X : Type) (c : Sync X),
  ok X c -> uses_only ok (act c).
Proof. intros X c H. split; [exact H|intros x; exact I]. Qed.

End UsesOnly.

Lemma uses_only_weaken :
  forall (ok ok' : forall X : Type, Sync X -> Prop),
  (forall X c, ok X c -> ok' X c) ->
  forall (A : Type) (p : Prog A), uses_only ok p -> uses_only ok' p.
Proof.
  intros ok ok' Hok A.
  induction p as [a|e|X c k IH|X c k IH]; cbn; auto.
  intros [Hc Hk]. auto.
Qed.

Local Ltac uses_steps :=
  unfold calm, quiet;
  repeat first
    [ progress intros
    | exact I
    | assumption
    | apply uses_only_bind
    | apply uses_only_try_finally
    | apply uses_only_try_catch
    | apply uses_only_await
    | apply uses_only_act
    | match goal with
      | |- uses_only _ (match ?x with _ => _ end) => destruct x
      | |- uses_only _ (if ?x then _ else _) => destruct x
      end ].

Lemma canDeploy_uses : uses_only deploy_cmd _canDeploy.
Proof. unfold _canDeploy. uses_steps. Qed.

Lemma uploadMetadata_uses : forall n d i a,
  uses_only deploy_cmd (uploadMetadata n d i a).
Proof. intros n d i a. unfold uploadMetadata. uses_steps. Qed.

Lemma deploy_uses : uses_only deploy_cmd deploy.
Proof.
  unfold deploy, deploy_try, form_values, addCraftable.
  pose proof canDeploy_uses as Hc. pose proof uploadMetadata_uses as Hu.
  uses_steps; apply Hu.
Qed.

Lemma closeLoader_uses : uses_only closeLoader_cmd closeLoader.
Proof. unfold closeLoader. uses_steps. Qed.

Lemma addInput_uses : uses_only addInput_cmd _addInput.
Proof. unfold _addInput. uses_steps. Qed.

Local Ltac by_cases_on_cmd :=
  let X := fresh "X" in
  let c := fresh "c" in
  intros X c;
  destruct c as [| |[?|[|]|[|]|?|?|?]|?| | |? ?]; cbn;
  try exact (fun H => H); try exact (fun _ => I).

Lemma deploy_keeps_playing : uses_only keeps_playing_cmd deploy.
Proof.
  apply (uses_only_weaken deploy_cmd); [by_cases_on_cmd|apply deploy_uses].
Qed.

Lemma quiet_deploy : quiet deploy.
Proof.
  apply (uses_only_weaken deploy_cmd); [by_cases_on_cmd|apply deploy_uses].
Qed.

Lemma quiet_closeLoader : quiet closeLoader.
Proof.
  apply (uses_only_weaken closeLoader_cmd);
    [by_cases_on_cmd|apply closeLoader_uses].
Qed.

Lemma quiet_addInput : quiet _addInput.
Proof.
  apply (uses_only_weaken addInput_cmd);
    [by_cases_on_cmd|apply addInput_uses].
Qed.

Lemma quiet_calm : forall (A : Type) (p : Prog A), quiet p -> calm p.
Proof.
  intros A p. apply uses_only_weaken. by_cases_on_cmd.
Qed.

(** ** The loader stays closed *)

Lemma calm_callback : forall cb, calm (callback_body buildRecipeForm cb).
Proof.
  intros []. unfold callback_body, init_form.
  pose proof (quiet_calm _ _ quiet_addInput) as Ha. unfold calm in Ha.
  uses_steps.
Qed.

Lemma calm_lazyInitForm : calm _lazyInitForm.
Proof. unfold _lazyInitForm. uses_steps. Qed.

Lemma perform_keeps_closed : forall (X : Type) (c : Sync X) w,
  calm_cmd X c ->
  playing (this w) = false ->
  playing (this (snd (perform uid c w))) = false.
Proof.
  intros X c w Hc Hw.
  destruct c as [| |wr|e| | |cb d]; cbn; auto.
  destruct wr as [b|b|b|a|f|r]; cbn; auto.
  destruct b; [contradiction|reflexivity].
Qed.

Lemma note_keeps_this : forall (X : Type) (c : Async X) r w,
  this (note c r w) = this w.
Proof. intros X c r w. destruct c; reflexivity. Qed.

Lemma step_keeps_closed : forall sys sys',
  step buildRecipeForm uid sys sys' ->
  loader_closed sys -> loader_closed sys'.
Proof.
  intros sys sys' Hstep (Hp & Hrun & Hsus).
  destruct Hstep; unfold loader_closed;
    cbn [running suspended world] in *.
  - destruct (Hrun _ eq_refl) as [Hc Hk].
    repeat split; auto using perform_keeps_closed.
    intros p [= <-]. apply Hk.
  - repeat split; auto; [discriminate|].
    apply Forall_app. split; auto.
  - repeat split; auto. discriminate.
  - repeat split; auto. discriminate.
  - apply Forall_app in Hsus as [H1 H2].
    apply Forall_cons_iff in H2 as [Hk H2].
    repeat split.
    + now rewrite note_keeps_this.
    + intros p [= <-]. apply Hk.
    + apply Forall_app. now split.
  - match goal with H : fires _ _ _ |- _ => destruct H end.
    repeat split; auto. intros p [= <-]. apply calm_callback.
  - repeat split; auto. intros p [= <-]. apply quiet_calm, quiet_deploy.
  - repeat split; auto. intros p [= <-]. apply quiet_calm, quiet_closeLoader.
  - repeat split; auto. intros p [= <-]. apply quiet_calm, quiet_addInput.
  - repeat split; auto.
  - repeat split; auto.
Qed.

Lemma reachable_loader_closed : forall st t0 sys,
  reachable buildRecipeForm uid st t0 sys -> loader_closed sys.
Proof.
  induction 1 as [|sys sys' _ IH Hstep].
  - repeat split; cbn; auto.
    intros p [= <-]. apply calm_lazyInitForm.
  - eapply step_keeps_closed; eauto.
Qed.

(** C10. [playing] is false on the page as constructed; [deploy] has no
    command that writes it; the only commands of [closeLoader] are the
    assignments [playing = false] and [totallyDone = true].  Hence in every
    state the page can reach, at the end of a turn or in the middle of one,
    with any interleaving of [deploy] runs, [closeLoader], [_addInput], form
    edits and the form initialization, [playing] is false, and the blocking
    loader that [render] opens while [playing] is true stays closed. *)
Theorem playing_always_false : forall st t0 sys,
  reachable buildRecipeForm uid st t0 sys ->
  playing initial_state = false /\
  uses_only keeps_playing_cmd deploy /\
  uses_only closeLoader_cmd closeLoader /\
  playing (this (world sys)) = false /\
  loader_open (render (this (world sys))) = false.
Proof.
  intros st t0 sys H.
  destruct (reachable_loader_closed _ _ _ H) as [Hp _].
  split; [reflexivity|].
  split; [apply deploy_keeps_playing|].
  split; [apply closeLoader_uses|].
  now split.
Qed.

(** ** The minimum loading time *)

Lemma quiet_on_time : forall t0 (A : Type) (p : Prog A),
  quiet p -> forall now, on_time t0 now p.
Proof.
  intros t0 A.
  induction p as [a|e|X c k IH|X c k IH]; cbn; auto.
  - intros [Hc Hk] now. split.
    + destruct c as [| |wr|e| | |cb d]; cbn in *; auto;
        try contradiction.
      destruct wr as [b|b|b|a|f|r]; cbn in *; auto; contradiction.
    + intros x _. apply IH, Hk.
  - intros Hk now later r _. apply IH, Hk.
Qed.

Lemma on_time_lazyInitForm : forall t0, on_time t0 t0 _lazyInitForm.
Proof.
  intros t0. cbn -[Z.add Z.sub Z.max]. split; [exact I|].
  intros start -> later [e|[]] Hlater; cbn -[Z.add Z.sub Z.max]; [exact I|].
  split; [exact I|]. intros finished ->. split; [lia|auto].
Qed.

Lemma on_time_callback : forall t0 now cb,
  t0 + 800 <= now -> on_time t0 now (callback_body buildRecipeForm cb).
Proof.
  intros t0 now [] Hnow. cbn. split; [exact I|]. intros st _.
  split; [exact Hnow|]. intros _ _.
  apply (quiet_on_time t0 _ _ quiet_addInput).
Qed.

Lemma perform_clock : forall (X : Type) (c : Sync X) w,
  clock (snd (perform uid c w)) = clock w.
Proof. intros X c w. destruct c; reflexivity. Qed.

Lemma perform_returns : forall (X : Type) (c : Sync X) w,
  returns (clock w) c (fst (perform uid c w)).
Proof. intros X c w. destruct c; cbn; auto. Qed.

Lemma perform_form_on_time : forall t0 (X : Type) (c : Sync X) w,
  on_time_cmd t0 (clock w) X c ->
  (form (this w) <> None -> t0 + 800 <= clock w) ->
  form (this (snd (perform uid c w))) <> None -> t0 + 800 <= clock w.
Proof.
  intros t0 X c w Hc Hw.
  destruct c as [| |wr|e| | |cb d]; cbn -[Z.add] in *; auto.
  destruct wr as [b|b|b|a|f|r]; cbn -[Z.add] in *; auto.
  intros H. apply Hw. destruct (form (this w)); [discriminate|exact H].
Qed.

Lemma perform_timers_on_time : forall t0 (X : Type) (c : Sync X) w,
  on_time_cmd t0 (clock w) X c ->
  Forall (fun t => t0 + 800 <= fst t) (timers w) ->
  Forall (fun t => t0 + 800 <= fst t) (timers (snd (perform uid c w))).
Proof.
  intros t0 X c w Hc Hw.
  destruct c as [| |wr|e| | |cb d]; cbn -[Z.add] in *; auto.
  apply Forall_app. split; [exact Hw|]. constructor; [exact Hc|constructor].
Qed.

Lemma note_frame : forall (X : Type) (c : Async X) r w,
  this (note c r w) = this w /\ clock (note c r w) = clock w /\
  timers (note c r w) = timers w.
Proof. intros X c r w. destruct c; repeat split. Qed.

Lemma step_keeps_on_time : forall t0 sys sys',
  step buildRecipeForm uid sys sys' ->
  form_on_time t0 sys -> form_on_time t0 sys'.
Proof.
  intros t0 sys sys' Hstep (Hform & Htim & Hrun & Hsus).
  destruct Hstep; unfold form_on_time;
    cbn [running suspended world] in *;
    (split; [|split; [|split]]).
  (* a command of the running program *)
  - rewrite perform_clock.
    destruct (Hrun _ eq_refl) as [Hc _].
    now apply perform_form_on_time.
  - destruct (Hrun _ eq_refl) as [Hc _].
    now apply perform_timers_on_time.
  - rewrite perform_clock. intros p [= <-].
    destruct (Hrun _ eq_refl) as [_ Hk]. apply Hk, perform_returns.
  - now rewrite perform_clock.
  (* the running program suspends *)
  - exact Hform.
  - exact Htim.
  - discriminate.
  - apply Forall_app. split; [exact Hsus|].
    constructor; [|constructor].
    intros later Hlater later' r Hlater'.
    apply (Hrun _ eq_refl). lia.
  (* it returns *)
  - exact Hform.
  - exact Htim.
  - discriminate.
  - exact Hsus.
  (* it throws *)
  - exact Hform.
  - exact Htim.
  - discriminate.
  - exact Hsus.
  (* a suspended program resumes *)
  - destruct (note_frame X c r w) as (Et & Ec & _). now rewrite Et, Ec.
  - destruct (note_frame X c r w) as (_ & _ & Em). now rewrite Em.
  - destruct (note_frame X c r w) as (_ & Ec & _). rewrite Ec.
    intros p [= <-].
    apply Forall_app in Hsus as [_ H2].
    apply Forall_cons_iff in H2 as [Hk _].
    apply (Hk (clock w)); lia.
  - destruct (note_frame X c r w) as (_ & Ec & _). rewrite Ec.
    apply Forall_app in Hsus as [H1 H2].
    apply Forall_cons_iff in H2 as [_ H2].
    apply Forall_app. now split.
  (* a timer fires *)
  - match goal with H : fires _ _ _ |- _ => destruct H end. exact Hform.
  - match goal with
    | H : fires _ _ _ |- _ => destruct H as [due cb t1 t2 E D]
    end.
    cbn [timers with_timers]. rewrite E in Htim.
    apply Forall_app in Htim as [T1 T2].
    apply Forall_cons_iff in T2 as [_ T2].
    apply Forall_app. now split.
  - match goal with
    | H : fires _ _ _ |- _ => destruct H as [due cb t1 t2 E D]
    end.
    cbn [clock with_timers]. rewrite E in Htim.
    apply Forall_app in Htim as [_ T2].
    apply Forall_cons_iff in T2 as [Tdue _]. cbn [fst] in Tdue.
    intros p [= <-]. apply on_time_callback. lia.
  - match goal with H : fires _ _ _ |- _ => destruct H end. exact Hsus.
  (* deploy is called *)
  - exact Hform.
  - exact Htim.
  - intros p [= <-]. apply (quiet_on_time t0 _ _ quiet_deploy).
  - exact Hsus.
  (* closeLoader is called *)
  - exact Hform.
  - exact Htim.
  - intros p [= <-]. apply (quiet_on_time t0 _ _ quiet_closeLoader).
  - exact Hsus.
  (* _addInput is called *)
  - exact Hform.
  - exact Htim.
  - intros p [= <-]. apply (quiet_on_time t0 _ _ quiet_addInput).
  - exact Hsus.
  (* the user edits the form *)
  - cbn [this clock with_this]. intros _. apply Hform. congruence.
  - exact Htim.
  - discriminate.
  - exact Hsus.
  (* time passes, the store changes *)
  - cbn [this clock with_clock with_store]. intros Hf.
    specialize (Hform Hf). lia.
  - exact Htim.
  - discriminate.
  - cbn [clock with_clock]. eapply Forall_impl; [|exact Hsus].
    cbn beta. intros p Hp later Hlater. apply Hp. lia.
Qed.

Lemma reachable_form_on_time : forall st t0 sys,
  reachable buildRecipeForm uid st t0 sys -> form_on_time t0 sys.
Proof.
  induction 1 as [|sys sys' _ IH Hstep].
  - unfold form_on_time, boot. cbn [running suspended world].
    repeat split.
    + intros H. now contradiction H.
    + constructor.
    + intros p [= <-]. apply on_time_lazyInitForm.
    + constructor.
  - eapply step_keeps_on_time; eauto.
Qed.

(** C8. Let the constructor run at time [start] and the readiness flag
    resolve at time [finished].  The constructor's turn ends suspended on
    [when], with no form and no timer.  The turn that follows the
    resolution schedules the form's construction with a delay of
    [max 0 (800 - elapsed)], [elapsed] being [finished - start], and leaves
    the form absent; the timer is due [max 800 elapsed] after [start],
    which is not before [finished].  Whenever the timer fires, at least
    [max 800 elapsed] have passed since [start], the time is not before
    [finished], and the turn of the timer's function puts the form in
    place.  And whatever else happens on the page, in every state it
    reaches with the form in place at least 800 ms have passed since
    [start]. *)
Theorem lazy_init_minimum_delay : forall st st' start finished,
  let elapsed := finished - start in
  let restDelay := Z.max 0 (800 - elapsed) in
  let due := finished + restDelay in
  let w0 := boot_world st start in
  let w1 := with_clock finished (with_store st' w0) in
  let w2 := with_timers [(due, InitFormCallback)] w1 in
  exists k,
    turn uid _lazyInitForm w0 =
      (Some (Await (When (fun st => negb (isLoadingCanonicalTokens st))) k),
       w0) /\
    turn uid (k (inr tt)) w1 = (None, w2) /\
    form (this w2) = None /\
    due - start = Z.max 800 elapsed /\
    finished <= due /\
    (forall fire cb w3,
        fires (with_clock fire w2) cb w3 ->
        Z.max 800 elapsed <= fire - start /\
        finished <= fire /\
        form (this (snd (turn uid (callback_body buildRecipeForm cb) w3)))
          <> None) /\
    (forall sys,
        reachable buildRecipeForm uid st start sys ->
        form (this (world sys)) <> None ->
        start + 800 <= clock (world sys)).
Proof.
  intros st st' start finished elapsed restDelay due w0 w1 w2.
  eexists. split; [reflexivity|].
  split; [reflexivity|].
  split; [reflexivity|].
  split; [unfold due, restDelay, elapsed; lia|].
  split; [unfold due, restDelay; lia|].
  split.
  - intros fire cb w3 Hfire.
    destruct Hfire as [due' cb t1 t2 Htimers Hdue].
    unfold w2 in Htimers, Hdue.
    cbn [timers clock with_clock with_timers] in Htimers, Hdue.
    destruct t1 as [|x [|y t1]]; try discriminate Htimers.
    injection Htimers as <- <- _.
    split; [unfold due, restDelay, elapsed in Hdue; lia|].
    split; [unfold due, restDelay in Hdue; lia|].
    discriminate.
  - intros sys Hreach.
    now destruct (reachable_form_on_time _ _ _ Hreach) as [Hform _].
Qed.

(** * Further properties of the page *)

(** ** Runs of deploy *)

Lemma deploy_outcome : forall o s st,
  outcome uid o deploy s st = Returned tt.
Proof.
  intros o s st.
  unfold outcome, deploy, deploy_try, _canDeploy, form_values,
    uploadMetadata, addCraftable.
  cbn.
  destruct (crafty st) as [h|] eqn:Hc; cbn; [|reflexivity].
  destruct (form s) as [f|]; cbn; [|reflexivity].
  destruct (post_answer o _ _) as [e|r1]; cbn; [reflexivity|].
  destruct (status r1 =? 200); cbn; [|reflexivity].
  destruct (post_answer o (metadata_url _) _) as [e|r2]; cbn;
    [reflexivity|].
  destruct (status r2 =? 200); cbn; [|reflexivity].
  rewrite Hc; cbn.
  destruct (mint_answer o h _ _ _ _ _); reflexivity.
Qed.

(** X1. Called while the form is still null, with [crafty] present,
    [deploy()] makes no request and no contract call: the [TypeError] of
    [this.form.values()] is caught and logged, and the fields end as they
    were, [deploying] being false. *)
Theorem deploy_before_form : forall o s st h,
  crafty st = Some h ->
  form s = None ->
  trace uid o deploy s st = [EvLog (TypeError "this.form is null")] /\
  final uid o deploy s st =
    {| deploying := false; playing := playing s;
       totallyDone := totallyDone s; tokenAddress := tokenAddress s;
       form := None |}.
Proof.
  intros o s st h Hc Hf.
  destruct (deploy_run o s st); try congruence.
  split; [reflexivity|].
  unfold after_failure. cbn. now rewrite Hf.
Qed.

(** X2. When [addCraftable] rejects, after both uploads succeeded, the
    rejection is logged, [tokenAddress] and [totallyDone] keep their values
    and [deploying] ends false. *)
Theorem deploy_mint_rejected : forall o s st h n sy u ings amts e,
  In (EvMint h n sy u ings amts (inl e)) (trace uid o deploy s st) ->
  In (EvLog e) (trace uid o deploy s st) /\
  tokenAddress (final uid o deploy s st) = tokenAddress s /\
  totallyDone (final uid o deploy s st) = totallyDone s /\
  deploying (final uid o deploy s st) = false.
Proof.
  intros o s st h n sy u ings amts e Hin.
  destruct (deploy_run o s st); among Hin; same_event Hin.
  repeat split. simpl. auto.
Qed.

(** X3. [deploy()] never rejects: whatever the state, the store and the
    answers of the network and of the contract, the run returns; and when
    [crafty] is present it ends with [deploying] false (the [finally]
    block), also when the form is null or the contract call fails. *)
Theorem deploy_never_throws : forall o s st,
  outcome uid o deploy s st = Returned tt /\
  (crafty st <> None -> deploying (final uid o deploy s st) = false).
Proof.
  intros o s st. split; [apply deploy_outcome|].
  intros Hc. destruct (deploy_run o s st); try reflexivity.
  now contradiction Hc.
Qed.


(** X5. A run of [deploy()] in which the contract call did not resolve,
    started with [deploying] false, leaves the component exactly as it
    found it: nothing is kept from the failed attempt, and the next call
    starts from the same state. *)
Theorem deploy_failure_restores : forall o s st,
  deploying s = false ->
  (forall h n sy u ings amts a,
      ~ In (EvMint h n sy u ings amts (inr a)) (trace uid o deploy s st)) ->
  final uid o deploy s st = s.
Proof.
  intros o s st Hd Hno.
  destruct (deploy_run o s st); trivial;
    try (destruct s; cbn in *; subst; reflexivity).
  exfalso. eapply Hno. simpl. eauto.
Qed.

(** X6. [addCraftable] is invoked only after the thumbnail request and then
    the metadata request both came back with status 200, in that order and
    with nothing in between.  The thumbnail request carries the form's
    image; the metadata request carries the form's name and description,
    the body of the thumbnail response as it came, and the wallet address
    as author; the contract call carries the form's name and symbol and
    the body of the metadata response as URI. *)
Theorem deploy_mint_after_uploads : forall o s st h n sy u ings amts ans,
  In (EvMint h n sy u ings amts ans) (trace uid o deploy s st) ->
  exists f r1 r2 rest,
    form s = Some f /\
    crafty st = Some h /\
    status r1 = 200 /\
    status r2 = 200 /\
    n = name f /\ sy = symbol f /\ u = data r2 /\
    trace uid o deploy s st =
      (EvPost (thumbnail_url (api st)) (thumbnail_body (image f)) (inr r1)
       :: EvPost (metadata_url (api st))
            (metadata_body (name f) (description f) (data r1)
               (currentAddress st)) (inr r2)
       :: EvMint h n sy u ings amts ans
       :: rest)%list.
Proof.
  intros o s st h n sy u ings amts ans Hin.
  destruct (deploy_run o s st); among Hin; same_event Hin;
    do 4 eexists; repeat split; eauto.
Qed.

(** X7. [deploy()] does something exactly when [crafty] is present: its
    run leaves no event if and only if [crafty] is absent. *)
Theorem deploy_acts_iff_crafty : forall o s st,
  trace uid o deploy s st = [] <-> crafty st = None.
Proof.
  intros o s st.
  destruct (deploy_run o s st); split; intros Hnone;
    try reflexivity; try assumption; try discriminate; congruence.
Qed.

(** X8. [deploy()] does not look at [deploying], [playing], [totallyDone]
    or [tokenAddress]: two pages with the same form send the same requests
    and make the same contract call, so a call made while a run is in
    flight, or after one has finished, starts the whole sequence again. *)
Theorem deploy_ignores_flags : forall o s1 s2 st,
  form s1 = form s2 ->
  trace uid o deploy s1 st = trace uid o deploy s2 st.
Proof.
  intros o s1 s2 st Hform.
  unfold trace, deploy, deploy_try, _canDeploy, form_values,
    uploadMetadata, addCraftable.
  cbn.
  destruct (crafty st) as [h|] eqn:Hc; cbn; [|reflexivity].
  rewrite Hform.
  destruct (form s2) as [f|]; cbn; [|reflexivity].
  destruct (post_answer o _ _) as [e|r1]; cbn; [reflexivity|].
  destruct (status r1 =? 200); cbn; [|reflexivity].
  destruct (post_answer o (metadata_url _) _) as [e|r2]; cbn;
    [reflexivity|].
  destruct (status r2 =? 200); cbn; [|reflexivity].
  rewrite Hc; cbn.
  destruct (mint_answer o h _ _ _ _ _); reflexivity.
Qed.

(** X9. After a run of [deploy()] in which the contract call resolved to
    [a], [render] redirects to [/craft/a] and the loader may be closed. *)
Theorem deploy_success_redirects : forall o s st h n sy u ings amts a,
  In (EvMint h n sy u ings amts (inr a)) (trace uid o deploy s st) ->
  redirect (render (final uid o deploy s st)) = Some ("/craft/" ++ a)%string
  /\ loader_canClose (render (final uid o deploy s st)) = true.
Proof.
  intros o s st h n sy u ings amts a Hin.
  destruct (deploy_run o s st); among Hin; same_event Hin.
  split; reflexivity.
Qed.

(** ** _addInput *)

Lemma addInput_run : forall o w f,
  form (this w) = Some f ->
  exec uid o _addInput w =
    (Returned tt,
     with_this (apply_write (AddInput (blank_row (uid (uids w)))) (this w))
       (with_uids (S (uids w)) w)).
Proof.
  intros o w f Hf. unfold _addInput. cbn. rewrite Hf. cbn.
  rewrite Hf. reflexivity.
Qed.

Lemma exec_bind : forall (A B : Type) o (p : Prog A) (f : A -> Prog B) w,
  exec uid o (bind p f) w =
    match exec uid o p w with
    | (Returned a, w') => exec uid o (f a) w'
    | (Raised e, w') => (Raised e, w')
    | (Pending, w') => (Pending, w')
    end.
Proof.
  induction p as [a|e|X c k IH|X c k IH]; intros f w; cbn;
    try reflexivity.
  - destruct (perform uid c w) as [x w']. apply IH.
  - destruct (answer o c w) as [r|]; [apply IH|reflexivity].
Qed.

(** X10. [n] calls of [_addInput] on a page whose form is in place append
    [n] rows after the rows already there, in the order of the calls; the
    new rows have no address and no amount, their ids are the next [n]
    values of [uid]; the scalar fields of the form, the other fields of the
    component and the log are untouched. *)
Theorem add_inputs_appends : forall o n w f,
  form (this w) = Some f ->
  let w' := snd (exec uid o (add_inputs n) w) in
  fst (exec uid o (add_inputs n) w) = Returned tt /\
  form (this w') =
    Some {| image := image f; name := name f; symbol := symbol f;
            description := description f;
            inputs := (inputs f
                       ++ map (fun i => blank_row (uid i))
                            (seq (uids w) n))%list |} /\
  uids w' = (uids w + n)%nat /\
  deploying (this w') = deploying (this w) /\
  playing (this w') = playing (this w) /\
  totallyDone (this w') = totallyDone (this w) /\
  tokenAddress (this w') = tokenAddress (this w) /\
  events w' = events w.
Proof.
  intros o n. induction n as [|n IH]; intros w f Hf.
  - cbn. rewrite app_nil_r, Nat.add_0_r.
    destruct f. repeat split. exact Hf.
  - cbn [add_inputs]. cbn zeta.
    rewrite exec_bind, (addInput_run o w f Hf).
    set (w1 := with_this
                 (apply_write (AddInput (blank_row (uid (uids w))))
                    (this w))
                 (with_uids (S (uids w)) w)).
    assert (Hf1 : form (this w1)
                  = Some (add_row (blank_row (uid (uids w))) f)).
    { unfold w1. cbn. now rewrite Hf. }
    destruct (IH w1 _ Hf1) as (H1 & H2 & H3 & H4 & H5 & H6 & H7 & H8).
    repeat split; try assumption.
    + rewrite H2. cbn. now rewrite <- app_assoc.
    + rewrite H3. unfold w1. cbn. lia.
Qed.

(** X11. [_addInput] called while the form is still null throws the
    [TypeError] of [this.form.$] before [uid] is called: whatever the
    number of calls, the first ends the sequence and the world is as it
    was, no id being used up. *)
Theorem add_inputs_without_form : forall o n w,
  form (this w) = None ->
  exec uid o (add_inputs (S n)) w
    = (Raised (TypeError "this.form is null"), w) /\
  turn uid _addInput w = (None, w).
Proof.
  intros o n w Hf. unfold _addInput. cbn. rewrite Hf. cbn. now split.
Qed.

(** ** uploadMetadata *)

(** X12. [uploadMetadata] neither depends on the fields of the component
    nor changes them: run with any other component state [s'] it has the
    same outcome and sends the same requests, and it leaves the fields,
    the timers and the [uid] counter as they were.  It always sends the
    thumbnail request first, then at most one more request, and leaves
    nothing else in the log. *)
Theorem uploadMetadata_frame : forall o w n d i a s',
  let run := exec uid o (uploadMetadata n d i a) w in
  let run' := exec uid o (uploadMetadata n d i a) (with_this s' w) in
  this (snd run) = this w /\
  timers (snd run) = timers w /\
  uids (snd run) = uids w /\
  fst run' = fst run /\
  events (snd run') = events (snd run) /\
  this (snd run') = s' /\
  exists ans rest,
    events (snd run) =
      (events w
       ++ EvPost (thumbnail_url (api (store w))) (thumbnail_body i) ans
       :: rest)%list /\
    (List.length rest <= 1)%nat /\
    Forall is_post rest.
Proof.
  intros o w n d i a s'. unfold uploadMetadata. cbn.
  destruct (post_answer o _ _) as [e|r1]; cbn.
  { repeat split. exists (inl e), []. repeat split; auto. }
  destruct (status r1 =? 200); cbn.
  2:{ repeat split. exists (inr r1), []. repeat split; auto. }
  assert (Hsent : forall ev1 ev2 : Event,
             ((events w ++ [ev1]) ++ [ev2] = events w ++ ev1 :: [ev2])%list).
  { intros ev1 ev2. now rewrite <- app_assoc. }
  destruct (post_answer o (metadata_url _) _) as [e|r2]; cbn.
  { repeat split. eexists (inr r1), [_]. split; [apply Hsent|].
    split; [cbn; lia|repeat constructor]. }
  destruct (status r2 =? 200); cbn;
    (repeat split; eexists (inr r1), [_]; (split; [apply Hsent|]);
     split; [cbn; lia|repeat constructor]).
Qed.

(** X13. When both requests come back with status 200, [uploadMetadata]
    returns the body of the metadata response, having sent the thumbnail
    request and then the metadata request, the latter with the name, the
    description and the author it was given and the body of the thumbnail
    response passed through as it came. *)
Theorem uploadMetadata_returns_uri : forall o w n d i a r1 r2,
  post_answer o (thumbnail_url (api (store w))) (thumbnail_body i)
    = inr r1 ->
  status r1 = 200 ->
  post_answer o (metadata_url (api (store w)))
    (metadata_body n d (data r1) a) = inr r2 ->
  status r2 = 200 ->
  exec uid o (uploadMetadata n d i a) w =
    (Returned (data r2),
     with_events
       (events w ++
        [EvPost (thumbnail_url (api (store w))) (thumbnail_body i) (inr r1);
         EvPost (metadata_url (api (store w)))
           (metadata_body n d (data r1) a) (inr r2)])%list w).
Proof.
  intros o w n d i a r1 r2 H1 S1 H2 S2.
  apply Z.eqb_eq in S1, S2.
  unfold uploadMetadata. cbn. rewrite H1. cbn. rewrite S1. cbn.
  rewrite H2. cbn. rewrite S2. cbn.
  unfold with_events. cbn. now rewrite <- app_assoc.
Qed.

(** X14. When the thumbnail request came back with status 200 and the
    metadata request does not (another status, or a rejection),
    [uploadMetadata] throws: the rejection as it is, or the "Unexpected API
    response" error carrying the status of the metadata response. *)
Theorem uploadMetadata_metadata_failure : forall o w n d i a r1 ans,
  post_answer o (thumbnail_url (api (store w))) (thumbnail_body i)
    = inr r1 ->
  status r1 = 200 ->
  post_answer o (metadata_url (api (store w)))
    (metadata_body n d (data r1) a) = ans ->
  not_200 ans ->
  fst (exec uid o (uploadMetadata n d i a) w) = Raised (failure_of ans).
Proof.
  intros o w n d i a r1 ans H1 S1 H2 Hans.
  apply Z.eqb_eq in S1.
  unfold uploadMetadata. cbn. rewrite H1. cbn. rewrite S1. cbn.
  rewrite H2. destruct ans as [e|r2]; cbn in *; [reflexivity|].
  apply Z.eqb_neq in Hans. now rewrite Hans.
Qed.

(** ** More on the thumbnail payload *)

Lemma split_comma_nonempty : forall s,
  exists piece pieces, split_comma s = piece :: pieces.
Proof.
  induction s as [|c s (piece & pieces & IH)]; cbn.
  - eauto.
  - destruct (Ascii.eqb c ","%char); [eauto|]. rewrite IH. eauto.
Qed.

Lemma first_comma : forall s,
  has_comma s = true ->
  exists p rest,
    s = (p ++ String ","%char rest)%string /\ has_comma p = false.
Proof.
  induction s as [|c s IH]; cbn; intros H; [discriminate|].
  destruct (Ascii.eqb c ","%char) eqn:Ec.
  - apply Ascii.eqb_eq in Ec. subst c.
    exists EmptyString, s. now split.
  - destruct (IH H) as (p & rest & -> & Hp).
    exists (String c p), rest. cbn. rewrite Ec. now split.
Qed.

(** X15. The [image-base64] field of the thumbnail request is [undefined]
    exactly when the image value contains no comma; otherwise it is a
    string. *)
Theorem image_base64_undefined_iff : forall image,
  image_base64 image = VUndefined <-> has_comma image = false.
Proof.
  intros image. split.
  - intros H. destruct (has_comma image) eqn:Hc; [|reflexivity].
    destruct (first_comma _ Hc) as (p & rest & -> & Hp).
    unfold image_base64 in H.
    rewrite (split_comma_prefix _ _ Hp) in H.
    destruct (split_comma_nonempty rest) as (piece & pieces & E).
    rewrite E in H. discriminate H.
  - apply image_base64_plain.
Qed.

(** X16. Only the text between the first and the second comma of the image
    value is sent: whatever follows a second comma is dropped. *)
Theorem image_base64_second_comma : forall prefix payload tail,
  has_comma prefix = false ->
  has_comma payload = false ->
  image_base64 (prefix ++ "," ++ payload ++ "," ++ tail)%string
    = VString payload.
Proof.
  intros prefix payload tail Hp Hq. unfold image_base64.
  change ("," ++ payload ++ "," ++ tail)%string
    with (String ","%char (payload ++ String ","%char tail)).
  rewrite (split_comma_prefix _ _ Hp), (split_comma_prefix _ _ Hq).
  reflexivity.
Qed.

(** ** What the event loop never undoes *)

Lemma lazyInitForm_uses : uses_only page_cmd _lazyInitForm.
Proof. unfold _lazyInitForm. uses_steps. Qed.

Lemma callback_uses : forall cb,
  uses_only page_cmd (callback_body buildRecipeForm cb).
Proof.
  intros []. unfold callback_body, init_form.
  assert (Ha : uses_only page_cmd _addInput).
  { apply (uses_only_weaken addInput_cmd);
      [by_cases_on_cmd|apply addInput_uses]. }
  uses_steps.
Qed.

Lemma step_keeps_programs : forall sys sys',
  step buildRecipeForm uid sys sys' ->
  programs_use page_cmd sys -> programs_use page_cmd sys'.
Proof.
  intros sys sys' Hstep [Hrun Hsus].
  destruct Hstep; unfold programs_use;
    cbn [running suspended world] in *; split;
    try exact Hsus; try discriminate.
  - intros p [= <-]. destruct (Hrun _ eq_refl) as [_ Hk]. apply Hk.
  - apply Forall_app. split; [exact Hsus|].
    constructor; [now apply Hrun|constructor].
  - intros p [= <-].
    apply Forall_app in Hsus as [_ H2].
    apply Forall_cons_iff in H2 as [Hk _]. apply Hk.
  - apply Forall_app in Hsus as [H1 H2].
    apply Forall_cons_iff in H2 as [_ H2].
    apply Forall_app. now split.
  - intros p [= <-]. apply callback_uses.
  - intros p [= <-].
    apply (uses_only_weaken deploy_cmd);
      [by_cases_on_cmd|apply deploy_uses].
  - intros p [= <-].
    apply (uses_only_weaken closeLoader_cmd);
      [by_cases_on_cmd|apply closeLoader_uses].
  - intros p [= <-].
    apply (uses_only_weaken addInput_cmd);
      [by_cases_on_cmd|apply addInput_uses].
Qed.

Lemma reachable_programs : forall st t0 sys,
  reachable buildRecipeForm uid st t0 sys -> programs_use page_cmd sys.
Proof.
  induction 1 as [|sys sys' _ IH Hstep].
  - split; cbn; [|constructor].
    intros p [= <-]. apply lazyInitForm_uses.
  - eapply step_keeps_programs; eauto.
Qed.

Lemma settled_refl : forall s, settled s s.
Proof. intros s. repeat split; auto. Qed.

Lemma settled_trans : forall s1 s2 s3,
  settled s1 s2 -> settled s2 s3 -> settled s1 s3.
Proof.
  intros s1 s2 s3 (A1 & A2 & A3) (B1 & B2 & B3). repeat split; auto.
Qed.

Lemma perform_settled : forall (X : Type) (c : Sync X) w,
  page_cmd X c -> settled (this w) (this (snd (perform uid c w))).
Proof.
  intros X c w Hc.
  destruct c as [| |wr|e| | |cb d]; try apply settled_refl.
  destruct wr as [b|b|[|]|a|f|r]; cbn in *;
    try contradiction; repeat split; cbn; auto; try discriminate.
  destruct (form (this w)); cbn; [discriminate|auto].
Qed.

Lemma step_settled : forall sys sys',
  step buildRecipeForm uid sys sys' ->
  programs_use page_cmd sys ->
  settled (this (world sys)) (this (world sys')).
Proof.
  intros sys sys' Hstep [Hrun _].
  destruct Hstep; cbn [running suspended world] in *;
    try apply settled_refl.
  - destruct (Hrun _ eq_refl) as [Hc _]. now apply perform_settled.
  - destruct c; apply settled_refl.
  - match goal with H : fires _ _ _ |- _ => destruct H end.
    apply settled_refl.
  - repeat split; cbn; auto. discriminate.
Qed.

Lemma exec_star : forall o (p : Prog unit) l w,
  fst (exec uid o p w) <> Pending ->
  clos_refl_trans_1n Sys (step buildRecipeForm uid)
    (mkSys (Some p) l w) (mkSys None l (snd (exec uid o p w))).
Proof.
  intros o.
  induction p as [a|e|X c k IH|X c k IH]; intros l w Hdone; cbn in *.
  - eapply Relation_Operators.rt1n_trans; [apply step_return|].
    apply rt1n_refl.
  - eapply Relation_Operators.rt1n_trans; [apply step_throw|].
    apply rt1n_refl.
  - eapply Relation_Operators.rt1n_trans; [apply step_do|].
    destruct (perform uid c w) as [x w'] eqn:E. cbn. now apply IH.
  - destruct (answer o c w) as [r|] eqn:E; [|now contradiction Hdone].
    eapply Relation_Operators.rt1n_trans; [apply step_await|].
    eapply Relation_Operators.rt1n_trans;
      [apply (step_resume buildRecipeForm uid X c k r l [] w)|].
    + destruct c; cbn in *; auto.
      destruct (cond (store w)); [|discriminate E].
      injection E as <-. now split.
    + rewrite app_nil_r. now apply IH.
Qed.

(** X17. [totallyDone] never goes back to false: from any state the page
    can reach, however it goes on ([deploy] runs that succeed or fail,
    [closeLoader], [_addInput], edits, timers, answers in any order),
    [totallyDone] once true stays true. *)
Theorem page_never_reverts : forall st t0 sys sys',
  reachable buildRecipeForm uid st t0 sys ->
  clos_refl_trans_1n Sys (step buildRecipeForm uid) sys sys' ->
  totallyDone (this (world sys)) = true ->
  totallyDone (this (world sys')) = true.
Proof.
  intros st t0 sys sys' Hreach Hstar.
  assert (Hs : settled (this (world sys)) (this (world sys'))).
  { induction Hstar as [sys|sys mid sys' Hstep Hstar IH].
    - apply settled_refl.
    - eapply settled_trans.
      + apply (step_settled _ _ Hstep).
        apply (reachable_programs _ _ _ Hreach).
      + apply IH. eapply reach_step; eauto. }
  now destruct Hs as [Hdone _].
Qed.

(** ** While the tokens are loading *)

Lemma held_bind : forall (A B : Type) (p : Prog A) (f : A -> Prog B),
  held p -> (forall a, held (f a)) -> held (bind p f).
Proof.
  induction p as [a|e|X c k IH|X c k IH]; cbn; intros f Hp Hf; auto.
  - destruct Hp as [Hc Hk]. split; auto.
  - destruct Hp as [Hc Hk]. split; auto.
Qed.

Lemma held_try_catch : forall (A : Type) (p : Prog A) h,
  held p -> (forall e, held (h e)) -> held (try_catch p h).
Proof.
  induction p as [a|e|X c k IH|X c k IH]; cbn; intros h Hp Hh; auto.
  - destruct Hp as [Hc Hk]. split; auto.
  - destruct Hp as [Hc Hk]. split; auto.
Qed.

Lemma held_try_finally : forall (A : Type) (p : Prog A) f,
  held p -> held f -> held (try_finally p f).
Proof.
  induction p as [a|e|X c k IH|X c k IH]; cbn; intros f Hp Hf.
  - apply held_bind; cbn; auto.
  - apply held_bind; cbn; auto.
  - destruct Hp as [Hc Hk]. split; auto.
  - destruct Hp as [Hc Hk]. split; auto.
Qed.

Lemma held_await : forall (X : Type) (c : Async X),
  is_when c = false -> held (await c).
Proof.
  intros X c Hc. cbn. split.
  - destruct c; [exact I|exact I|discriminate Hc].
  - intros [e|x] _; exact I.
Qed.

Lemma held_act : forall (X : Type) (c : Sync X),
  quiet_cmd X c -> held (act c).
Proof. intros X c H. split; [exact H|intros x; exact I]. Qed.

Local Ltac held_steps :=
  repeat first
    [ progress intros
    | exact I
    | reflexivity
    | assumption
    | apply held_bind
    | apply held_try_finally
    | apply held_try_catch
    | apply held_await
    | apply held_act
    | match goal with
      | |- held (match ?x with _ => _ end) => destruct x
      | |- held (if ?x then _ else _) => destruct x
      end ].

Lemma held_addInput : held _addInput.
Proof. unfold _addInput. held_steps. Qed.

Lemma held_closeLoader : held closeLoader.
Proof. unfold closeLoader. held_steps. Qed.

Lemma held_deploy : held deploy.
Proof.
  unfold deploy, deploy_try, _canDeploy, form_values, uploadMetadata,
    addCraftable.
  held_steps.
Qed.

Lemma held_lazyInitForm : held _lazyInitForm.
Proof.
  unfold _lazyInitForm. cbn -[Z.sub Z.max]. split; [exact I|].
  intros start. split; [|discriminate].
  intros st Hst. now apply negb_true_iff in Hst.
Qed.

Lemma perform_waiting : forall (X : Type) (c : Sync X) w,
  quiet_cmd X c ->
  form (this w) = None -> timers w = [] ->
  store (snd (perform uid c w)) = store w /\
  form (this (snd (perform uid c w))) = None /\
  timers (snd (perform uid c w)) = [].
Proof.
  intros X c w Hc Hf Ht.
  destruct c as [| |wr|e| | |cb d]; cbn in *; auto; try contradiction.
  destruct wr as [b|b|b|a|f|r]; cbn in *; auto; try contradiction.
  now rewrite Hf.
Qed.

Lemma note_store : forall (X : Type) (c : Async X) r w,
  store (note c r w) = store w.
Proof. intros X c r w. destruct c; reflexivity. Qed.

Lemma loading_run_waiting : forall st t0 sys,
  loading_run buildRecipeForm uid st t0 sys -> waiting sys.
Proof.
  induction 1 as [Hst|sys sys' _ IH Hstep Hload].
  - unfold waiting, boot. cbn [running suspended world boot_world].
    split; [exact Hst|]. split; [reflexivity|]. split; [reflexivity|].
    split; [|constructor].
    intros p [= <-]. apply held_lazyInitForm.
  - destruct IH as (Hl & Hf & Ht & Hrun & Hsus).
    destruct Hstep; unfold waiting;
      cbn [running suspended world] in *;
      (split; [exact Hload|]).
    + destruct (Hrun _ eq_refl) as [Hc Hk].
      destruct (perform_waiting X c w Hc Hf Ht) as (_ & Hf' & Ht').
      split; [exact Hf'|]. split; [exact Ht'|]. split; [|exact Hsus].
      intros p [= <-]. apply Hk.
    + split; [exact Hf|]. split; [exact Ht|]. split; [discriminate|].
      apply Forall_app. split; [exact Hsus|].
      constructor; [now apply Hrun|constructor].
    + split; [exact Hf|]. split; [exact Ht|]. split; [discriminate|].
      exact Hsus.
    + split; [exact Hf|]. split; [exact Ht|]. split; [discriminate|].
      exact Hsus.
    + apply Forall_app in Hsus as [H1 H2].
      apply Forall_cons_iff in H2 as [[Hg Hk] H2].
      destruct (note_frame X c r w) as (Et & _ & Em).
      rewrite Et, Em.
      split; [exact Hf|]. split; [exact Ht|]. split.
      * intros p [= <-]. apply Hk.
        match goal with
        | M : may_answer _ _ _ |- _ => rename M into Hans
        end.
        destruct c; try reflexivity.
        cbn in Hg, Hans. destruct Hans as [_ Hans].
        apply Hg in Hans. congruence.
      * apply Forall_app. now split.
    + match goal with
      | F : fires _ _ _ |- _ => destruct F as [due cb t1 t2 E D]
      end.
      rewrite Ht in E. now destruct t1.
    + split; [exact Hf|]. split; [exact Ht|]. split; [|exact Hsus].
      intros p [= <-]. apply held_deploy.
    + split; [exact Hf|]. split; [exact Ht|]. split; [|exact Hsus].
      intros p [= <-]. apply held_closeLoader.
    + split; [exact Hf|]. split; [exact Ht|]. split; [|exact Hsus].
      intros p [= <-]. apply held_addInput.
    + congruence.
    + split; [exact Hf|]. split; [exact Ht|]. split; [discriminate|].
      exact Hsus.
Qed.

Lemma perform_store : forall (X : Type) (c : Sync X) w,
  store (snd (perform uid c w)) = store w.
Proof. intros X c w. destruct c; reflexivity. Qed.

Lemma loading_turn_reaches : forall st t0 p l w,
  isLoadingCanonicalTokens (store w) = true ->
  loading_run buildRecipeForm uid st t0 (mkSys (Some p) l w) ->
  loading_run buildRecipeForm uid st t0
    (mkSys None (l ++ parked (fst (turn uid p w)))%list
       (snd (turn uid p w))).
Proof.
  induction p as [a|e|X c k IH|X c k IH]; intros l w Hl Hr; cbn.
  - rewrite app_nil_r.
    eapply loading_step; [exact Hr|apply step_return|exact Hl].
  - rewrite app_nil_r.
    eapply loading_step; [exact Hr|apply step_throw|exact Hl].
  - pose proof (perform_store X c w) as Es.
    eapply loading_step in Hr; [|apply step_do|cbn; now rewrite Es].
    destruct (perform uid c w) as [x w'] eqn:E. cbn in Es, Hr.
    apply IH; [now rewrite Es|exact Hr].
  - eapply loading_step; [exact Hr|apply step_await|exact Hl].
Qed.

(** X18. As long as the canonical tokens keep loading, whatever else
    happens on the page and however long it lasts, the form stays null, no
    timer is set, and [render] shows the loading placeholders: the page has
    no time-out for the wait. *)
Theorem form_waits_for_tokens : forall st t0 sys,
  loading_run buildRecipeForm uid st t0 sys ->
  form (this (world sys)) = None /\
  timers (world sys) = [] /\
  sections_loading (render (this (world sys))) = true.
Proof.
  intros st t0 sys Hrun.
  destruct (loading_run_waiting _ _ _ Hrun) as (_ & Hf & Ht & _).
  repeat split; auto. cbn. now rewrite Hf.
Qed.

(** ** Deploying does not stick *)

Local Ltac tame_cases :=
  let X := fresh "X" in
  let c := fresh "c" in
  intros X c;
  destruct c as [| |[[|]|[|]|[|]|?|?|?]|?| | |? ?]; cbn;
  try exact (fun H => H); try exact (fun _ => I).

Lemma tame_careful : forall (A : Type) (p : Prog A),
  uses_only tame_cmd p -> careful p.
Proof.
  induction p as [a|e|X c k IH|X c k IH]; cbn; auto.
  intros [Hc Hk]. split; [|auto].
  intros Hset. exfalso.
  destruct c as [| |[[|]|?|?|?|?|?]|?| | |? ?]; cbn in *; contradiction.
Qed.

Lemma will_reset_finally : forall (A : Type) (p : Prog A),
  uses_only tame_cmd p ->
  will_reset (try_finally p (act (Assign (SetDeploying false)))).
Proof.
  induction p as [a|e|X c k IH|X c k IH]; cbn.
  - intros _. left. exact I.
  - intros _. left. exact I.
  - intros [Hc Hk]. right. auto.
  - intros Hk r. auto.
Qed.

Lemma tame_try_block :
  uses_only tame_cmd
    (try_catch deploy_try (fun error => act (ConsoleError error))).
Proof.
  unfold deploy_try, form_values, uploadMetadata, addCraftable.
  uses_steps.
Qed.

Lemma careful_deploy : careful deploy.
Proof.
  unfold deploy, _canDeploy.
  remember (try_finally
              (try_catch deploy_try (fun error => act (ConsoleError error)))
              (act (Assign (SetDeploying false)))) as body eqn:Hbody.
  cbn. split; [intros []|].
  intros st. destruct (crafty st); cbn; [|exact I].
  subst body. split.
  - intros _ []. apply will_reset_finally, tame_try_block.
  - intros []. apply tame_careful.
    apply uses_only_try_finally; [apply tame_try_block|].
    apply uses_only_act. exact I.
Qed.

Lemma careful_closeLoader : careful closeLoader.
Proof.
  apply tame_careful, (uses_only_weaken closeLoader_cmd);
    [tame_cases|apply closeLoader_uses].
Qed.

Lemma careful_addInput : careful _addInput.
Proof.
  apply tame_careful, (uses_only_weaken addInput_cmd);
    [tame_cases|apply addInput_uses].
Qed.

Lemma careful_callback : forall cb,
  careful (callback_body buildRecipeForm cb).
Proof.
  intros []. apply tame_careful. unfold callback_body, init_form.
  assert (Ha : uses_only tame_cmd _addInput).
  { apply (uses_only_weaken addInput_cmd);
      [tame_cases|apply addInput_uses]. }
  uses_steps.
Qed.

Lemma careful_lazyInitForm : careful _lazyInitForm.
Proof. apply tame_careful. unfold _lazyInitForm. uses_steps. Qed.

(** What a command does to [deploying]. *)
Lemma perform_deploying : forall (X : Type) (c : Sync X) w,
  (resets_deploying c /\
   deploying (this (snd (perform uid c w))) = false) \/
  (sets_deploying c) \/
  (~ resets_deploying c /\ tame_cmd X c /\
   deploying (this (snd (perform uid c w))) = deploying (this w)).
Proof.
  intros X c w.
  destruct c as [| |[[|]|?|?|?|?|?]|?| | |? ?]; cbn; auto;
    right; right; repeat split; auto.
Qed.

Lemma step_keeps_accounted : forall sys sys',
  step buildRecipeForm uid sys sys' ->
  deploying_accounted sys -> deploying_accounted sys'.
Proof.
  intros sys sys' Hstep [Hcare Hwit].
  unfold deploying_accounted, in_flight in *.
  destruct Hstep; cbn [running suspended world] in *.
  (* a command of the running program *)
  - assert (Hp : careful (Do c k)) by (apply Hcare; auto).
    destruct Hp as [Hset Hk]. split.
    + intros p [[= <-]|Hin]; [apply Hk|apply Hcare; auto].
    + intros Hd.
      destruct (perform_deploying X c w) as [[_ E]|[S|(Hn & _ & E)]].
      * congruence.
      * eexists. split; [left; reflexivity|]. now apply Hset.
      * rewrite E in Hd.
        destruct (Hwit Hd) as (p & [[= <-]|Hin] & Hp).
        -- destruct Hp as [Hr|[_ Hp]]; [contradiction|].
           eexists. split; [left; reflexivity|apply Hp].
        -- exists p. auto.
  (* the running program suspends *)
  - split.
    + intros p [Hp|Hin]; [discriminate|].
      apply in_app_or in Hin as [Hin|[<-|[]]]; apply Hcare; auto.
    + intros Hd. destruct (Hwit Hd) as (p & [[= <-]|Hin] & Hp).
      * eexists. split; [right; apply in_or_app; right; left; reflexivity|].
        exact Hp.
      * exists p. split; [right; apply in_or_app; auto|exact Hp].
  (* it returns *)
  - split.
    + intros p [Hp|Hin]; [discriminate|apply Hcare; auto].
    + intros Hd. destruct (Hwit Hd) as (p & [[= <-]|Hin] & Hp).
      * contradiction.
      * exists p. auto.
  (* it throws *)
  - split.
    + intros p [Hp|Hin]; [discriminate|apply Hcare; auto].
    + intros Hd. destruct (Hwit Hd) as (p & [[= <-]|Hin] & Hp).
      * contradiction.
      * exists p. auto.
  (* a suspended program resumes *)
  - destruct (note_frame X c r w) as (Et & _ & _). rewrite Et. split.
    + intros p [[= <-]|Hin].
      * assert (Hp : careful (Await c k)).
        { apply Hcare. right. apply in_or_app. right. left. reflexivity. }
        apply Hp.
      * apply Hcare. right.
        apply in_app_or in Hin as [Hin|Hin]; apply in_or_app; auto.
        right. right. exact Hin.
    + intros Hd. destruct (Hwit Hd) as (p & [Hp0|Hin] & Hp);
        [discriminate|].
      apply in_app_or in Hin as [Hin|[<-|Hin]].
      * exists p. split; [right; apply in_or_app; auto|exact Hp].
      * eexists. split; [left; reflexivity|apply Hp].
      * exists p. split; [right; apply in_or_app; auto|exact Hp].
  (* a timer fires *)
  - match goal with F : fires _ _ _ |- _ => destruct F end.
    cbn [this with_timers]. split.
    + intros p [[= <-]|Hin]; [apply careful_callback|apply Hcare; auto].
    + intros Hd. destruct (Hwit Hd) as (p & [Hp0|Hin] & Hp);
        [discriminate|]. exists p. auto.
  (* deploy is called *)
  - split.
    + intros p [[= <-]|Hin]; [apply careful_deploy|apply Hcare; auto].
    + intros Hd. destruct (Hwit Hd) as (p & [Hp0|Hin] & Hp);
        [discriminate|]. exists p. auto.
  (* closeLoader is called *)
  - split.
    + intros p [[= <-]|Hin]; [apply careful_closeLoader|apply Hcare; auto].
    + intros Hd. destruct (Hwit Hd) as (p & [Hp0|Hin] & Hp);
        [discriminate|]. exists p. auto.
  (* _addInput is called *)
  - split.
    + intros p [[= <-]|Hin]; [apply careful_addInput|apply Hcare; auto].
    + intros Hd. destruct (Hwit Hd) as (p & [Hp0|Hin] & Hp);
        [discriminate|]. exists p. auto.
  (* the user edits the form *)
  - split; [exact Hcare|]. cbn. exact Hwit.
  (* time passes, the store changes *)
  - split; [exact Hcare|]. cbn. exact Hwit.
Qed.

Lemma reachable_accounted : forall st t0 sys,
  reachable buildRecipeForm uid st t0 sys -> deploying_accounted sys.
Proof.
  induction 1 as [|sys sys' _ IH Hstep].
  - split.
    + intros p [[= <-]|[]]. apply careful_lazyInitForm.
    + cbn. discriminate.
  - eapply step_keeps_accounted; eauto.
Qed.

Lemma careful_exec_resets : forall (A : Type) (p : Prog A) o w,
  careful p ->
  will_reset p \/ deploying (this w) = false ->
  fst (exec uid o p w) <> Pending ->
  deploying (this (snd (exec uid o p w))) = false.
Proof.
  induction p as [a|e|X c k IH|X c k IH]; cbn; intros o w Hcare Hp Hend.
  - now destruct Hp.
  - now destruct Hp.
  - destruct Hcare as [Hset Hk].
    pose proof (perform_deploying X c w) as Hc.
    destruct (perform uid c w) as [x w'] eqn:E. cbn [snd] in Hc.
    apply IH; [apply Hk| |exact Hend].
    destruct Hc as [[_ Hd]|[Hs|(Hn & _ & Hd)]].
    + now right.
    + left. now apply Hset.
    + destruct Hp as [[Hr|[_ Hp]]|Hp].
      * contradiction.
      * left. apply Hp.
      * right. congruence.
  - destruct (answer o c w) as [r|]; [|now contradiction Hend].
    apply IH; [apply Hcare| |exact Hend].
    destruct (note_frame X c r w) as (Et & _ & _). rewrite Et.
    destruct Hp as [Hp|Hp]; [left; apply Hp|now right].
Qed.

(** X19. [deploying] is true only while a run that resets it is in flight.
    In every state the page can reach, with any interleaving and any number
    of overlapping [deploy] runs, if [deploying] is true then some program
    of the loop, running or suspended on a request, assigns
    [deploying = false] on every path before it ends: carried to its end
    from any world and with any answers, it leaves [deploying] false.  So
    [deploying] stays true only as long as a request is unanswered; when
    nothing runs and nothing is suspended, it is false and the loader may
    be closed. *)
Theorem deploying_is_reset : forall st t0 sys,
  reachable buildRecipeForm uid st t0 sys ->
  (deploying (this (world sys)) = true ->
   exists p,
     in_flight sys p /\ will_reset p /\
     forall o w,
       fst (exec uid o p w) <> Pending ->
       deploying (this (snd (exec uid o p w))) = false) /\
  (running sys = None -> suspended sys = [] ->
   deploying (this (world sys)) = false /\
   loader_canClose (render (this (world sys))) = true).
Proof.
  intros st t0 sys Hreach.
  destruct (reachable_accounted _ _ _ Hreach) as [Hcare Hwit].
  split.
  - intros Hd. destruct (Hwit Hd) as (p & Hin & Hp).
    exists p. split; [exact Hin|]. split; [exact Hp|].
    intros o w. apply careful_exec_resets; [now apply Hcare|now left].
  - intros Hrun Hsus.
    assert (Hd : deploying (this (world sys)) = false).
    { destruct (deploying (this (world sys))) eqn:E; [|reflexivity].
      destruct (Hwit eq_refl) as (p & [Hp|Hin] & _).
      - congruence.
      - rewrite Hsus in Hin. contradiction. }
    split; [exact Hd|]. cbn. now rewrite Hd.
Qed.

(** ** The invariant of the data model, in the loop the page offers *)

Lemma page_step_step : forall sys sys',
  page_step buildRecipeForm uid sys sys' ->
  step buildRecipeForm uid sys sys'.
Proof.
  intros sys sys' H. destruct H.
  - assumption.
  - now apply step_resume.
  - now apply step_timer.
  - apply step_deploy.
  - apply step_closeLoader.
  - apply step_addInput.
  - eapply step_edit; eauto.
  - now apply step_env.
Qed.

Lemma page_reachable_reachable : forall st t0 sys,
  page_reachable buildRecipeForm uid st t0 sys ->
  reachable buildRecipeForm uid st t0 sys.
Proof.
  induction 1 as [|sys sys' _ IH Hstep].
  - apply reach_boot.
  - eapply reach_step; [exact IH|]. now apply page_step_step.
Qed.












(** Turns and sequential runs are executions of that loop too. *)
Lemma page_do : forall st t0 (X : Type) (c : Sync X) k l w,
  page_reachable buildRecipeForm uid st t0 (mkSys (Some (Do c k)) l w) ->
  page_reachable buildRecipeForm uid st t0
    (mkSys (Some (k (fst (perform uid c w)))) l (snd (perform uid c w))).
Proof.
  intros st t0 X c k l w H. eapply page_next; [exact H|].
  apply page_run; [discriminate|apply step_do].
Qed.

Lemma page_turn_reaches : forall st t0 p l w,
  page_reachable buildRecipeForm uid st t0 (mkSys (Some p) l w) ->
  page_reachable buildRecipeForm uid st t0
    (mkSys None (l ++ parked (fst (turn uid p w)))%list
       (snd (turn uid p w))).
Proof.
  induction p as [a|e|X c k IH|X c k IH]; intros l w Hr; cbn.
  - rewrite app_nil_r. eapply page_next; [exact Hr|].
    apply page_run; [discriminate|apply step_return].
  - rewrite app_nil_r. eapply page_next; [exact Hr|].
    apply page_run; [discriminate|apply step_throw].
  - destruct (perform uid c w) as [x w'] eqn:E.
    apply IH. apply page_do in Hr. now rewrite E in Hr.
  - eapply page_next; [exact Hr|].
    apply page_run; [discriminate|apply step_await].
Qed.

Lemma page_resume_only : forall st t0 (X : Type) (c : Async X) k r w,
  page_reachable buildRecipeForm uid st t0 (mkSys None [Await c k] w) ->
  may_answer c r w ->
  page_reachable buildRecipeForm uid st t0
    (mkSys (Some (k r)) [] (note c r w)).
Proof.
  intros st t0 X c k r w H Hans. eapply page_next; [exact H|].
  now apply (page_resume buildRecipeForm uid X c k r [] [] w).
Qed.

Lemma page_exec_reaches : forall st t0 o (p : Prog unit) l w,
  page_reachable buildRecipeForm uid st t0 (mkSys (Some p) l w) ->
  fst (exec uid o p w) <> Pending ->
  page_reachable buildRecipeForm uid st t0
    (mkSys None l (snd (exec uid o p w))).
Proof.
  intros st t0 o.
  induction p as [a|e|X c k IH|X c k IH]; intros l w Hr Hdone; cbn in *.
  - eapply page_next; [exact Hr|].
    apply page_run; [discriminate|apply step_return].
  - eapply page_next; [exact Hr|].
    apply page_run; [discriminate|apply step_throw].
  - destruct (perform uid c w) as [x w'] eqn:E.
    apply IH; [|exact Hdone].
    apply page_do in Hr. now rewrite E in Hr.
  - destruct (answer o c w) as [r|] eqn:E; [|now contradiction Hdone].
    apply IH; [|exact Hdone].
    eapply page_next in Hr;
      [|apply page_run; [discriminate|apply step_await]].
    eapply page_next in Hr;
      [|apply (page_resume buildRecipeForm uid X c k r l [] w)].
    + now rewrite app_nil_r in Hr.
    + destruct c; cbn in *; auto.
      destruct (cond (store w)); [|discriminate E].
      injection E as <-. now split.
Qed.

End Facts.

(** * A page that has been through its initialization *)

Lemma sample_ready :
  page_reachable Sample.emptyRecipeForm Sample.uid Sample.domain 0
    (mkSys None [] Cases.ready_world).
Proof.
  pose proof (page_boot Sample.emptyRecipeForm Sample.uid Sample.domain 0)
    as H.
  apply page_turn_reaches in H. cbn in H.
  eapply page_resume_only in H; [|split; reflexivity].
  apply page_turn_reaches in H. cbn in H.
  eapply page_next in H;
    [|apply (page_env Sample.emptyRecipeForm Sample.uid Sample.domain 800)];
    [|cbn; lia].
  eapply page_next in H;
    [|apply page_timer;
      apply (fires_due _ 800 InitFormCallback [] []); [reflexivity|]];
    [|cbn; lia].
  apply page_turn_reaches in H. cbn in H.
  eapply page_next in H;
    [|eapply (page_edit Sample.emptyRecipeForm Sample.uid _ Sample.sword);
      reflexivity].
  exact H.
Qed.

(** * The statements at sample inputs *)

Local Open Scope string_scope.

Lemma deploy_success_final_state_witness :
  tokenAddress (final Sample.uid Sample.all_ok deploy Sample.page
                  Sample.domain) = Some "0xNEW" /\
  totallyDone (final Sample.uid Sample.all_ok deploy Sample.page
                 Sample.domain) = true /\
  deploying (final Sample.uid Sample.all_ok deploy Sample.page
               Sample.domain) = false.
Proof.
  eapply (deploy_success_final_state Sample.uid Sample.all_ok Sample.page
            Sample.domain).
  - simpl. left. reflexivity.
  - reflexivity.
  - simpl. right. left. reflexivity.
  - reflexivity.
  - simpl. right. right. left. reflexivity.
Defined.

Lemma deploy_thumbnail_failure_stops_witness :
  (forall body' ans,
      ~ In (EvPost (metadata_url (api Sample.domain)) body' ans)
           (trace Sample.uid Sample.thumbnail_500 deploy Sample.page
              Sample.domain)) /\
  (forall h n sy u ings amts ans,
      ~ In (EvMint h n sy u ings amts ans)
           (trace Sample.uid Sample.thumbnail_500 deploy Sample.page
              Sample.domain)) /\
  totallyDone (final Sample.uid Sample.thumbnail_500 deploy Sample.page
                 Sample.domain) = totallyDone Sample.page /\
  deploying (final Sample.uid Sample.thumbnail_500 deploy Sample.page
               Sample.domain) = false.
Proof.
  eapply (deploy_thumbnail_failure_stops Sample.uid Sample.thumbnail_500
            Sample.page Sample.domain).
  - simpl. left. reflexivity.
  - simpl. lia.
Defined.

Lemma deploy_metadata_failure_stops_witness :
  (forall h n sy u ings amts ans,
      ~ In (EvMint h n sy u ings amts ans)
           (trace Sample.uid Sample.metadata_404 deploy Sample.page
              Sample.domain)) /\
  totallyDone (final Sample.uid Sample.metadata_404 deploy Sample.page
                 Sample.domain) = totallyDone Sample.page /\
  deploying (final Sample.uid Sample.metadata_404 deploy Sample.page
               Sample.domain) = false.
Proof.
  eapply (deploy_metadata_failure_stops Sample.uid Sample.metadata_404
            Sample.page Sample.domain).
  - simpl. right. left. reflexivity.
  - simpl. lia.
Defined.

Lemma deploy_noop_without_crafty_witness :
  exec Sample.uid Sample.all_ok deploy (fresh Sample.page Sample.offline)
    = (Returned tt, fresh Sample.page Sample.offline) /\
  turn Sample.uid deploy (fresh Sample.page Sample.offline)
    = (None, fresh Sample.page Sample.offline).
Proof.
  apply (deploy_noop_without_crafty Sample.uid Sample.all_ok
           (fresh Sample.page Sample.offline)).
  reflexivity.
Defined.

Lemma deploy_mint_lists_follow_rows_witness :
  let ings := [VString "0xA"; VString "0xB"] in
  let amts := [VString "1"; VString "2"] in
  ings = map address (inputs Sample.sword) /\
  amts = map amount (inputs Sample.sword) /\
  forall i row,
    nth_error (inputs Sample.sword) i = Some row ->
    nth_error ings i = Some (address row) /\
    nth_error amts i = Some (amount row).
Proof.
  eapply (deploy_mint_lists_follow_rows Sample.uid Sample.all_ok Sample.page
            Sample.domain Sample.sword).
  - reflexivity.
  - simpl. right. right. left. reflexivity.
Defined.

Lemma init_form_one_row_witness :
  let w := boot_world Sample.domain 0 in
  let run := exec Sample.uid Sample.all_ok
               (callback_body Sample.emptyRecipeForm InitFormCallback) w in
  fst run = Returned tt /\
  exists f,
    form (this (snd run)) = Some f /\
    inputs f = [ {| id := Sample.uid (uids w); address := VUndefined;
                    amount := VUndefined |} ] /\
    List.length (inputs f) = 1%nat.
Proof.
  apply (init_form_one_row Sample.emptyRecipeForm Sample.uid Sample.all_ok
           (boot_world Sample.domain 0)).
  reflexivity.
Defined.

(** C9, as stated, fails on an image value that has no prefix: the field is
    [undefined], not the value itself.  And when the thumbnail endpoint
    answers 500, so that axios rejects the request, [uploadMetadata] raises
    that rejection, not the "Unexpected API response" error. *)
Lemma thumbnail_payload_without_prefix :
  has_comma "iVBORw0KGgo=" = false /\
  thumbnail_body "iVBORw0KGgo="
    = VObject [("image-base64", VUndefined)] /\
  thumbnail_body "iVBORw0KGgo="
    <> VObject [("image-base64", VString "iVBORw0KGgo=")] /\
  hd_error (trace Sample.uid Sample.all_ok
              (uploadMetadata "Sword" "A sharp one" "iVBORw0KGgo=" "0xA11CE")
              Sample.page Sample.domain)
    = Some (EvPost "https://api.example/thumbnail"
              (VObject [("image-base64", VUndefined)])
              (inr {| status := 200; data := VString "ipfs://image" |})) /\
  outcome Sample.uid Cases.thumbnail_rejected
    (uploadMetadata "Sword" "A sharp one" (image Sample.sword) "0xA11CE")
    Sample.page Sample.domain
    = Raised (Rejected (VString "Request failed with status code 500")) /\
  outcome Sample.uid Cases.thumbnail_rejected
    (uploadMetadata "Sword" "A sharp one" (image Sample.sword) "0xA11CE")
    Sample.page Sample.domain
    <> Raised (UnexpectedAPIResponse 500).
Proof.
  repeat split; discriminate.
Qed.

Lemma thumbnail_payload_strips_prefix_witness :
  let w := fresh Sample.page Sample.domain in
  let image := "data:image/png;base64" ++ "," ++ "iVBORw0KGgo=" in
  let ans := inr {| status := 204; data := VUndefined |} in
  thumbnail_body image = VObject [("image-base64", VString "iVBORw0KGgo=")] /\
  exec Sample.uid Cases.thumbnail_204
    (uploadMetadata "Sword" "A sharp one" image "0xA11CE") w
    = (Raised (UnexpectedAPIResponse 204),
       with_events
         (events w ++
          [EvPost (thumbnail_url (api (store w))) (thumbnail_body image)
             ans])%list w) /\
  (forall r, ans = inr r ->
             failure_of ans = UnexpectedAPIResponse (status r)) /\
  (forall e, ans = inl e -> failure_of ans = e).
Proof.
  apply (thumbnail_payload_strips_prefix Sample.uid Cases.thumbnail_204
           (fresh Sample.page Sample.domain) "data:image/png;base64"
           "iVBORw0KGgo=" "Sword" "A sharp one"
           "data:image/png;base64,iVBORw0KGgo=" "0xA11CE"
           (inr {| status := 204; data := VUndefined |})).
  - reflexivity.
  - reflexivity.
  - reflexivity.
  - simpl. lia.
Defined.

Lemma playing_always_false_witness :
  playing initial_state = false /\
  uses_only keeps_playing_cmd deploy /\
  uses_only closeLoader_cmd closeLoader /\
  playing (this (world (boot Sample.domain 0))) = false /\
  loader_open (render (this (world (boot Sample.domain 0)))) = false.
Proof.
  apply (playing_always_false Sample.emptyRecipeForm Sample.uid
           Sample.domain 0 (boot Sample.domain 0)).
  apply reach_boot.
Defined.

(** * The further properties at sample inputs *)

Lemma deploy_before_form_witness :
  trace Sample.uid Sample.all_ok deploy initial_state Sample.domain
    = [EvLog (TypeError "this.form is null")] /\
  final Sample.uid Sample.all_ok deploy initial_state Sample.domain
    = initial_state.
Proof.
  apply (deploy_before_form Sample.uid Sample.all_ok initial_state
           Sample.domain (CraftyContract "0xC0FFEE")).
  - reflexivity.
  - reflexivity.
Defined.

Lemma deploy_mint_rejected_witness :
  In (EvLog (Rejected (VString "revert")))
     (trace Sample.uid Cases.mint_rejects deploy Sample.page Sample.domain)
  /\
  tokenAddress
    (final Sample.uid Cases.mint_rejects deploy Sample.page Sample.domain)
    = tokenAddress Sample.page /\
  totallyDone
    (final Sample.uid Cases.mint_rejects deploy Sample.page Sample.domain)
    = totallyDone Sample.page /\
  deploying
    (final Sample.uid Cases.mint_rejects deploy Sample.page Sample.domain)
    = false.
Proof.
  eapply (deploy_mint_rejected Sample.uid Cases.mint_rejects Sample.page
            Sample.domain).
  simpl. right. right. left. reflexivity.
Defined.

Lemma deploy_failure_restores_witness :
  final Sample.uid Sample.thumbnail_500 deploy Sample.page Sample.domain
    = Sample.page.
Proof.
  apply (deploy_failure_restores Sample.uid Sample.thumbnail_500
           Sample.page Sample.domain).
  - reflexivity.
  - intros h n sy u ings amts a Hin. simpl in Hin.
    destruct Hin as [Hin|[Hin|[]]]; discriminate Hin.
Defined.

Lemma deploy_mint_after_uploads_witness :
  exists f r1 r2 rest,
    form Sample.page = Some f /\
    crafty Sample.domain = Some (CraftyContract "0xC0FFEE") /\
    status r1 = 200 /\
    status r2 = 200 /\
    "Sword" = name f /\ "SWD" = symbol f /\
    VString "ipfs://metadata" = data r2 /\
    trace Sample.uid Sample.all_ok deploy Sample.page Sample.domain =
      (EvPost (thumbnail_url (api Sample.domain))
         (thumbnail_body (image f)) (inr r1)
       :: EvPost (metadata_url (api Sample.domain))
            (metadata_body (name f) (description f) (data r1)
               (currentAddress Sample.domain)) (inr r2)
       :: EvMint (CraftyContract "0xC0FFEE") "Sword" "SWD"
            (VString "ipfs://metadata")
            [VString "0xA"; VString "0xB"] [VString "1"; VString "2"]
            (inr "0xNEW")
       :: rest)%list.
Proof.
  apply (deploy_mint_after_uploads Sample.uid Sample.all_ok Sample.page
           Sample.domain).
  simpl. right. right. left. reflexivity.
Defined.

Lemma deploy_ignores_flags_witness :
  trace Sample.uid Sample.all_ok deploy Sample.page Sample.domain
    = trace Sample.uid Sample.all_ok deploy Cases.busy_page Sample.domain.
Proof.
  apply (deploy_ignores_flags Sample.uid Sample.all_ok Sample.page
           Cases.busy_page Sample.domain).
  reflexivity.
Defined.

Lemma deploy_success_redirects_witness :
  redirect
    (render (final Sample.uid Sample.all_ok deploy Sample.page
               Sample.domain)) = Some "/craft/0xNEW" /\
  loader_canClose
    (render (final Sample.uid Sample.all_ok deploy Sample.page
               Sample.domain)) = true.
Proof.
  eapply (deploy_success_redirects Sample.uid Sample.all_ok Sample.page
            Sample.domain).
  simpl. right. right. left. reflexivity.
Defined.

Lemma add_inputs_appends_witness :
  let w := fresh Sample.page Sample.domain in
  let w' := snd (exec Sample.uid Sample.all_ok (add_inputs 3) w) in
  fst (exec Sample.uid Sample.all_ok (add_inputs 3) w) = Returned tt /\
  form (this w') =
    Some {| image := image Sample.sword; name := name Sample.sword;
            symbol := symbol Sample.sword;
            description := description Sample.sword;
            inputs := (inputs Sample.sword
                       ++ map (fun i => blank_row (Sample.uid i))
                            (seq (uids w) 3))%list |} /\
  uids w' = (uids w + 3)%nat /\
  deploying (this w') = deploying (this w) /\
  playing (this w') = playing (this w) /\
  totallyDone (this w') = totallyDone (this w) /\
  tokenAddress (this w') = tokenAddress (this w) /\
  events w' = events w.
Proof.
  apply (add_inputs_appends Sample.uid Sample.all_ok 3
           (fresh Sample.page Sample.domain) Sample.sword).
  reflexivity.
Defined.

Lemma add_inputs_without_form_witness :
  exec Sample.uid Sample.all_ok (add_inputs 2)
    (boot_world Sample.domain 0)
    = (Raised (TypeError "this.form is null"), boot_world Sample.domain 0)
  /\
  turn Sample.uid _addInput (boot_world Sample.domain 0)
    = (None, boot_world Sample.domain 0).
Proof.
  apply (add_inputs_without_form Sample.uid Sample.all_ok 1
           (boot_world Sample.domain 0)).
  reflexivity.
Defined.

Lemma uploadMetadata_returns_uri_witness :
  let w := fresh Sample.page Sample.domain in
  let r1 := {| status := 200; data := VString "ipfs://image" |} in
  let r2 := {| status := 200; data := VString "ipfs://metadata" |} in
  exec Sample.uid Sample.all_ok
    (uploadMetadata "Sword" "A sharp one" (image Sample.sword) "0xA11CE") w
    = (Returned (VString "ipfs://metadata"),
       with_events
         (events w ++
          [EvPost (thumbnail_url (api (store w)))
             (thumbnail_body (image Sample.sword)) (inr r1);
           EvPost (metadata_url (api (store w)))
             (metadata_body "Sword" "A sharp one" (data r1) "0xA11CE")
             (inr r2)])%list w).
Proof.
  apply (uploadMetadata_returns_uri Sample.uid Sample.all_ok
           (fresh Sample.page Sample.domain) "Sword" "A sharp one"
           (image Sample.sword) "0xA11CE"
           {| status := 200; data := VString "ipfs://image" |}
           {| status := 200; data := VString "ipfs://metadata" |}).
  - reflexivity.
  - reflexivity.
  - reflexivity.
  - reflexivity.
Defined.

Lemma uploadMetadata_metadata_failure_witness :
  fst (exec Sample.uid Sample.metadata_404
         (uploadMetadata "Sword" "A sharp one" (image Sample.sword)
            "0xA11CE")
         (fresh Sample.page Sample.domain))
    = Raised (UnexpectedAPIResponse 404).
Proof.
  apply (uploadMetadata_metadata_failure Sample.uid Sample.metadata_404
           (fresh Sample.page Sample.domain) "Sword" "A sharp one"
           (image Sample.sword) "0xA11CE"
           {| status := 200; data := VString "ipfs://image" |}
           (inr {| status := 404; data := VUndefined |})).
  - reflexivity.
  - reflexivity.
  - reflexivity.
  - simpl. lia.
Defined.

Lemma image_base64_second_comma_witness :
  image_base64 ("data:image/png;base64" ++ "," ++ "iVBORw0KGgo="
                ++ "," ++ "trailing")
    = VString "iVBORw0KGgo=".
Proof.
  apply (image_base64_second_comma "data:image/png;base64" "iVBORw0KGgo="
           "trailing").
  - reflexivity.
  - reflexivity.
Defined.

Lemma page_never_reverts_witness :
  let sys := mkSys None []
               (snd (exec Sample.uid Sample.all_ok deploy
                       Cases.ready_world)) in
  let sys' := mkSys None []
                (snd (exec Sample.uid Cases.thumbnail_rejected deploy
                        (world sys))) in
  totallyDone (this (world sys)) = true /\
  events (world sys') <> events (world sys) /\
  totallyDone (this (world sys')) = true.
Proof.
  split; [reflexivity|]. split; [discriminate|].
  apply (page_never_reverts Sample.emptyRecipeForm Sample.uid Sample.domain
           0 (mkSys None []
                (snd (exec Sample.uid Sample.all_ok deploy
                        Cases.ready_world)))).
  - apply page_reachable_reachable.
    apply page_exec_reaches; [|discriminate].
    eapply page_next; [apply sample_ready|apply page_deploy].
  - eapply Relation_Operators.rt1n_trans; [apply step_deploy|].
    apply exec_star. discriminate.
  - reflexivity.
Defined.

Lemma form_waits_for_tokens_witness :
  exists sys,
    clock (world sys) = 60000 /\
    events (world sys) = [EvLog (TypeError "this.form is null")] /\
    form (this (world sys)) = None /\
    timers (world sys) = [] /\
    sections_loading (render (this (world sys))) = true.
Proof.
  pose proof (loading_boot Sample.emptyRecipeForm Sample.uid Cases.loading
                0 eq_refl) as H.
  apply loading_turn_reaches in H; [|reflexivity].
  eapply loading_step in H; [|apply step_deploy|reflexivity].
  apply loading_turn_reaches in H; [|reflexivity].
  eapply loading_step in H;
    [|apply (step_env Sample.emptyRecipeForm Sample.uid Cases.loading
               60000)|reflexivity];
    [|cbn; lia].
  eexists. split; [|split; [|apply (form_waits_for_tokens _ _ _ _ _ H)]];
    reflexivity.
Defined.

Lemma deploying_is_reset_witness :
  exists sys,
    deploying (this (world sys)) = true /\
    running sys = None /\
    List.length (suspended sys) = 1%nat /\
    exists p,
      in_flight sys p /\ will_reset p /\
      forall o w,
        fst (exec Sample.uid o p w) <> Pending ->
        deploying (this (snd (exec Sample.uid o p w))) = false.
Proof.
  pose proof (page_reachable_reachable _ _ _ _ _
                (page_turn_reaches _ _ _ _ _ _ _
                   (page_next _ _ _ _ _ _ sample_ready
                      (page_deploy _ _ _ _)))) as H.
  destruct (deploying_is_reset _ _ _ _ _ H) as [Hwit _].
  eexists. split; [|split; [|split; [|apply Hwit]]]; reflexivity.
Defined.

Lemma deploy_preserves_done_invariant_witness :
  done_invariant
    (final Sample.uid Sample.all_ok deploy Cases.done_page Sample.domain).
Proof.
  apply (deploy_preserves_done_invariant Sample.uid Sample.all_ok
           Cases.done_page Sample.domain).
  intros _. split; [discriminate|reflexivity].
Defined.

Lemma deploy_turn_by_turn_witness :
  exists k1,
    turn Sample.uid deploy (fresh Sample.page Sample.domain) =
      (Some (Await (AxiosPost "https://api.example/thumbnail"
                      (VObject [("image-base64", VString "iVBORw0KGgo=")]))
               k1),
       with_this (apply_write (SetDeploying true) Sample.page)
         (fresh Sample.page Sample.domain)).
Proof.
  destruct (deploy_turn_by_turn Sample.uid
              (fresh Sample.page Sample.domain)
              (CraftyContract "0xC0FFEE") Sample.sword
              eq_refl eq_refl) as (k1 & Hfirst & _).
  exists k1. exact Hfirst.
Defined.


